(** * sql_vs_functions.py: the ingestion strategies over a three-table store

    A shallow embedding of [save_first_n_tweets_to_file_1A], [null_checker],
    [create_tables], [insert_statements], [populate_tables_web_1B],
    [populate_tables_txt_1C], [batch_insert_data_1D],
    [execute_and_report_queries], [execute_query_iterations_2B],
    [execute_python_iterations_2C], the joined table of [main] and
    [export_tables_to_json_3B].

    Modelling conventions.
    - A Python object decoded by [json.loads] is a [value]; a [str] is a Rocq
      [string], one [ascii] per character.  A [float] is carried by the text
      [repr] gives it: the program only formats and stores floats.
    - A source line is a [line]: blank, text that [json.loads] rejects with
      [JSONDecodeError], or text that decodes to a [value].
    - An uncaught Python exception is [Raise e]; nothing else in the program
      catches it, so it aborts the invocation (and the open transaction is
      never committed).
    - A stored row holds the values the store keeps: the SQL values bound
      to the placeholders of the statement, converted to text in the VARCHAR
      columns (TEXT affinity), the two keys and the two references among
      them.  The text the store writes for a REAL is not computed from the
      [repr] of the float: it is a parameter, [real_text], and every theorem
      holds whatever it is; the examples at the end run with [repr_text].  The conversions of the INTEGER and REAL columns
      (friends_count, retweet_count, longitude, latitude; none is a key or a
      reference) are not modelled: a value is kept there as it was bound. *)

From Stdlib Require Import ZArith List String Ascii Bool Lia DecimalString.
Import ListNotations.
Set Warnings "-register-all".
Open Scope string_scope.
Open Scope Z_scope.

(** ** Python values and exceptions *)

Inductive value : Type :=
| VNone
| VBool (b : bool)
| VInt (z : Z)
| VFloat (repr : string)
| VStr (s : string)
| VList (l : list value)
| VDict (items : list (string * value)).

Inductive exn : Type :=
| KeyError
| TypeError
| ValueError
| AttributeError
| InterfaceError
| OverflowError
| ZeroDivisionError.

Inductive result (A : Type) : Type :=
| Ok (a : A)
| Raise (e : exn).
Arguments Ok {A} a.
Arguments Raise {A} e.

Definition bind {A B : Type} (r : result A) (k : A -> result B) : result B :=
  match r with
  | Ok a => k a
  | Raise e => Raise e
  end.

Notation "x <- c ;; k" := (bind c (fun x => k))
  (at level 61, c at next level, right associativity).
Notation "' pat <- c ;; k" := (bind c (fun x => match x with pat => k end))
  (at level 61, pat pattern, c at next level, right associativity).

(** What an invocation leaves behind, the kind of exception forgotten. *)
Definition content {A : Type} (r : result A) : option A :=
  match r with
  | Ok a => Some a
  | Raise _ => None
  end.

(** ** Operations of the Python runtime that the program uses *)

Fixpoint lookup (k : string) (items : list (string * value)) : option value :=
  match items with
  | [] => None
  | (k', v) :: rest => if String.eqb k' k then Some v else lookup k rest
  end.

(** [obj[k]] for a [str] key. *)
Definition subscript (obj : value) (k : string) : result value :=
  match obj with
  | VDict items =>
      match lookup k items with
      | Some v => Ok v
      | None => Raise KeyError
      end
  | _ => Raise TypeError
  end.

(** [obj.get(k, default)]; only a dict has the method. *)
Definition get (obj : value) (k : string) (default : value) : result value :=
  match obj with
  | VDict items =>
      match lookup k items with
      | Some v => Ok v
      | None => Ok default
      end
  | _ => Raise AttributeError
  end.

(** Truth value of an object, as [if geo:] tests it. *)
Definition truthy (v : value) : bool :=
  match v with
  | VNone => false
  | VBool b => b
  | VInt z => negb (z =? 0)
  | VFloat r => negb (String.eqb r "0.0" || String.eqb r "-0.0")
  | VStr s => negb (String.eqb s "")
  | VList l => match l with [] => false | _ => true end
  | VDict items => match items with [] => false | _ => true end
  end.

Definition is_substring (k s : string) : bool :=
  match index 0 k s with
  | Some _ => true
  | None => false
  end.

Definition eq_str (v : value) (s : string) : bool :=
  match v with
  | VStr s' => String.eqb s' s
  | _ => false
  end.

(** [k in obj] for a [str] key. *)
Definition contains (k : string) (obj : value) : result bool :=
  match obj with
  | VDict items => Ok (match lookup k items with Some _ => true | None => false end)
  | VStr s => Ok (is_substring k s)
  | VList l => Ok (existsb (fun x => eq_str x k) l)
  | _ => Raise TypeError
  end.

(** The elements a [for] loop or a tuple unpacking draws from an object. *)
Definition iterate (obj : value) : result (list value) :=
  match obj with
  | VList l => Ok l
  | VStr s => Ok (map (fun c => VStr (String c EmptyString)) (list_ascii_of_string s))
  | VDict items => Ok (map (fun kv => VStr (fst kv)) items)
  | _ => Raise TypeError
  end.

(** [longitude, latitude = obj]. *)
Definition unpack2 (obj : value) : result (value * value) :=
  elems <- iterate obj ;;
  match elems with
  | [a; b] => Ok (a, b)
  | _ => Raise ValueError
  end.

(** [isinstance(coord, (int, float))]; [bool] is a subclass of [int]. *)
Definition is_number (v : value) : bool :=
  match v with
  | VInt _ | VFloat _ | VBool _ => true
  | _ => false
  end.

Definition string_of_Z (z : Z) : string := NilZero.string_of_int (Z.to_int z).

Definition quote_char : ascii := ascii_of_nat 34.
Definition apostrophe : ascii := ascii_of_nat 39.
Definition backslash : ascii := ascii_of_nat 92.

Definition hex_digit (n : nat) : ascii :=
  if (n <? 10)%nat then ascii_of_nat (48 + n) else ascii_of_nat (87 + n).

Definition hex2 (c : ascii) : string :=
  let n := nat_of_ascii c in
  String (hex_digit (n / 16)) (String (hex_digit (n mod 16)) EmptyString).

Fixpoint join (sep : string) (parts : list string) : string :=
  match parts with
  | [] => ""
  | [p] => p
  | p :: rest => p ++ sep ++ join sep rest
  end.

Fixpoint flat_map_string (f : ascii -> string) (s : string) : string :=
  match s with
  | EmptyString => EmptyString
  | String c rest => f c ++ flat_map_string f rest
  end.

Fixpoint mem_char (c : ascii) (s : string) : bool :=
  match s with
  | EmptyString => false
  | String c' rest => Ascii.eqb c c' || mem_char c rest
  end.

(** [repr] of a [str]: the quote is an apostrophe unless the text holds one
    and no double quote. *)
Definition repr_char (q : ascii) (c : ascii) : string :=
  let n := nat_of_ascii c in
  if Ascii.eqb c q || Ascii.eqb c backslash then String backslash (String c EmptyString)
  else if (n =? 9)%nat then String backslash "t"
  else if (n =? 10)%nat then String backslash "n"
  else if (n =? 13)%nat then String backslash "r"
  else if (n <? 32)%nat || ((126 <? n)%nat && (n <? 161)%nat) || (n =? 173)%nat
       then String backslash ("x" ++ hex2 c)
  else String c EmptyString.

Definition repr_str (s : string) : string :=
  let q := if mem_char apostrophe s && negb (mem_char quote_char s)
           then quote_char else apostrophe in
  String q (flat_map_string (repr_char q) s) ++ String q EmptyString.

Fixpoint repr (v : value) : string :=
  match v with
  | VNone => "None"
  | VBool b => if b then "True" else "False"
  | VInt z => string_of_Z z
  | VFloat r => r
  | VStr s => repr_str s
  | VList l => "[" ++ join ", " (map repr l) ++ "]"
  | VDict items =>
      "{" ++ join ", " (map (fun kv => repr_str (fst kv) ++ ": " ++ repr (snd kv)) items) ++ "}"
  end.

(** The text an f-string puts for [{v}]. *)
Definition format (v : value) : string :=
  match v with
  | VStr s => s
  | _ => repr v
  end.

(** [json.dumps] with its default settings ([ensure_ascii], separators
    [", "] and [": "]). *)
Definition json_escape (c : ascii) : string :=
  let n := nat_of_ascii c in
  if Ascii.eqb c quote_char || Ascii.eqb c backslash then String backslash (String c EmptyString)
  else if (n =? 8)%nat then String backslash "b"
  else if (n =? 9)%nat then String backslash "t"
  else if (n =? 10)%nat then String backslash "n"
  else if (n =? 12)%nat then String backslash "f"
  else if (n =? 13)%nat then String backslash "r"
  else if (n <? 32)%nat || (126 <? n)%nat then String backslash ("u00" ++ hex2 c)
  else String c EmptyString.

Definition json_quote (s : string) : string :=
  String quote_char (flat_map_string json_escape s) ++ String quote_char EmptyString.

(** A float that is not finite is written NaN, Infinity or -Infinity
    ([allow_nan] is on), any other float by its [repr]. *)
Definition json_float (r : string) : string :=
  if String.eqb r "nan" then "NaN"
  else if String.eqb r "inf" then "Infinity"
  else if String.eqb r "-inf" then "-Infinity"
  else r.

Fixpoint json_dumps (v : value) : string :=
  match v with
  | VNone => "null"
  | VBool b => if b then "true" else "false"
  | VInt z => string_of_Z z
  | VFloat r => json_float r
  | VStr s => json_quote s
  | VList l => "[" ++ join ", " (map json_dumps l) ++ "]"
  | VDict items =>
      "{" ++ join ", " (map (fun kv => json_quote (fst kv) ++ ": " ++ json_dumps (snd kv)) items) ++ "}"
  end.

(** ** [null_checker] *)

Definition is_None (v : value) : bool :=
  match v with
  | VNone => true
  | _ => false
  end.

Definition null_checker (v : value) : value :=
  if eq_str v "NULL" || is_None v || eq_str v "" then VNone else v.

(** ** The store: [create_tables] and [insert_statements] *)

(** What the driver binds to a placeholder.  A [bool] is bound as an integer,
    an [int] must fit 64 bits, a [float] that is not a number is bound as
    NULL, a list or a dict is refused. *)
Inductive sqlval : Type :=
| SNull
| SInt (z : Z)
| SReal (repr : string)
| SText (s : string).

Definition sqlval_eqb (a b : sqlval) : bool :=
  match a, b with
  | SNull, SNull => true
  | SInt x, SInt y => x =? y
  | SReal x, SReal y => String.eqb x y
  | SText x, SText y => String.eqb x y
  | _, _ => false
  end.

Definition to_sql (v : value) : result sqlval :=
  match v with
  | VNone => Ok SNull
  | VBool b => Ok (SInt (if b then 1 else 0))
  | VInt z =>
      if (- 2 ^ 63 <=? z) && (z <? 2 ^ 63) then Ok (SInt z) else Raise OverflowError
  | VFloat r => Ok (if String.eqb r "nan" then SNull else SReal r)
  | VStr s => Ok (SText s)
  | VList _ | VDict _ => Raise InterfaceError
  end.

Fixpoint bind_params (params : list value) : result (list sqlval) :=
  match params with
  | [] => Ok []
  | p :: rest =>
      x <- to_sql p ;;
      xs <- bind_params rest ;;
      Ok (x :: xs)
  end.

Definition row : Type := list sqlval.
Definition table : Type := list row.

Inductive relation : Type := User | Geo | Tweet.

(** The three relations, rows in insertion order. *)
Record database : Type := mkdb {
  USER : table;
  GEO : table;
  TWEET : table
}.

(** The store [create_tables] leaves on a new database file. *)
Definition create_tables : database := mkdb [] [] [].

(** The affinity a declared type gives a column: TEXT for VARCHAR, INTEGER
    for INTEGER, REAL for REAL. *)
Inductive affinity : Type := TEXT | INTEGER | REAL.

(** The columns of the three CREATE TABLE statements, in order. *)
Definition columns (rel : relation) : list affinity :=
  match rel with
  | User => [TEXT; TEXT; TEXT; TEXT; INTEGER]
  | Geo => [TEXT; TEXT; REAL; REAL]
  | Tweet => [TEXT; TEXT; TEXT; TEXT; TEXT; TEXT; TEXT; INTEGER; TEXT; TEXT; TEXT]
  end.

(** Position of the PRIMARY KEY column: [USER.id], [GEO.geo_id] and
    [TWEET.id_str] (second column of TWEET). *)
Definition primary_key (rel : relation) : nat :=
  match rel with
  | User => 0%nat
  | Geo => 0%nat
  | Tweet => 1%nat
  end.

Definition rows (rel : relation) (db : database) : table :=
  match rel with
  | User => USER db
  | Geo => GEO db
  | Tweet => TWEET db
  end.

Definition set_rows (rel : relation) (t : table) (db : database) : database :=
  match rel with
  | User => mkdb t (GEO db) (TWEET db)
  | Geo => mkdb (USER db) t (TWEET db)
  | Tweet => mkdb (USER db) (GEO db) t
  end.

Definition key (pk : nat) (r : row) : sqlval := nth pk r SNull.

(** The engine behind the connection.  [real_text r] is the text it writes
    for the REAL whose [repr] is [r] when a column of TEXT affinity takes
    it. *)
Class Sqlite : Type := { real_text : string -> string }.

(** An engine that writes a REAL as the [repr] of the float, as the store
    does for 10.0 and 20.0. *)
Definition repr_text : Sqlite := {| real_text := fun r => r |}.

Section Engine.

Context {engine : Sqlite}.

(** What a column keeps of a bound value.  A column of TEXT affinity turns a
    number into text; NULL and text are kept under every affinity. *)
Definition apply_affinity (a : affinity) (x : sqlval) : sqlval :=
  match a, x with
  | TEXT, SInt z => SText (string_of_Z z)
  | TEXT, SReal r => SText (real_text r)
  | _, _ => x
  end.

(** The row a table keeps of the bound parameters, column by column. *)
Fixpoint coerce (affinities : list affinity) (r : row) : row :=
  match affinities, r with
  | a :: affinities, x :: r => apply_affinity a x :: coerce affinities r
  | _, _ => r
  end.

(** The uniqueness check of a VARCHAR PRIMARY KEY of an ordinary table, on
    the row as the table would keep it: the column takes NULL, and a NULL
    key conflicts with no row. *)
Definition conflicts (pk : nat) (r : row) (t : table) : bool :=
  match key pk r with
  | SNull => false
  | k => existsb (fun r' => sqlval_eqb (key pk r') k) t
  end.

Definition insert_or_ignore (pk : nat) (r : row) (t : table) : table :=
  if conflicts pk r t then t else (t ++ [r])%list.

Inductive statement : Type :=
| INSERT_OR_IGNORE_INTO (rel : relation).

Definition insert_statements : statement * statement * statement :=
  (INSERT_OR_IGNORE_INTO User, INSERT_OR_IGNORE_INTO Geo, INSERT_OR_IGNORE_INTO Tweet).

Definition insert_user : statement := fst (fst insert_statements).
Definition insert_geo : statement := snd (fst insert_statements).
Definition insert_tweet : statement := snd insert_statements.

(** [cursor.execute(stmt, params)]. *)
Definition execute (stmt : statement) (params : list value) (db : database)
  : result database :=
  r <- bind_params params ;;
  match stmt with
  | INSERT_OR_IGNORE_INTO rel =>
      Ok (set_rows rel
            (insert_or_ignore (primary_key rel) (coerce (columns rel) r) (rows rel db))
            db)
  end.

(** [cursor.executemany(stmt, batch)]. *)
Fixpoint executemany (stmt : statement) (batch : list (list value)) (db : database)
  : result database :=
  match batch with
  | [] => Ok db
  | params :: rest =>
      db' <- execute stmt params db ;;
      executemany stmt rest db'
  end.

(** ** Source lines *)

Inductive line : Type :=
| Blank
| Garbage
| Json (v : value).

(** [json.loads(line)]; [None] stands for [JSONDecodeError]. *)
Definition json_loads (l : line) : option value :=
  match l with
  | Json v => Some v
  | _ => None
  end.

(** Truth value of [line.strip()]. *)
Definition strip (l : line) : bool :=
  match l with
  | Blank => false
  | _ => true
  end.

(** ** [populate_tables_web_1B] *)

Definition geo_test_1B (geo : value) : result bool :=
  if truthy geo then
    has <- contains "coordinates" geo ;;
    if has then
      coords <- subscript geo "coordinates" ;;
      elems <- iterate coords ;;
      Ok (forallb is_number elems)
    else Ok false
  else Ok false.

Definition user_tuple_1B (user : value) : result (list value) :=
  a <- get user "id_str" VNone ;;
  b <- get user "name" VNone ;;
  c <- get user "screen_name" VNone ;;
  d <- get user "description" VNone ;;
  e <- get user "friends_count" VNone ;;
  Ok [null_checker a; null_checker b; null_checker c; null_checker d; null_checker e].

Definition geo_tuple (geo : value) : result (value * list value) :=
  coords <- subscript geo "coordinates" ;;
  ' (longitude, latitude) <- unpack2 coords ;;
  let geo_id := VStr (format longitude ++ "_" ++ format latitude) in
  Ok (geo_id, [geo_id; VStr "Point"; longitude; latitude]).

Definition tweet_tuple_1B (tweet user geo_id : value) : result (list value) :=
  a <- get tweet "created_at" VNone ;;
  b <- get tweet "id_str" VNone ;;
  c <- get tweet "text" VNone ;;
  d <- get tweet "source" VNone ;;
  e <- get tweet "in_reply_to_user_id_str" VNone ;;
  f <- get tweet "in_reply_to_screen_name" VNone ;;
  g <- get tweet "in_reply_to_status_id_str" VNone ;;
  h <- get tweet "retweet_count" VNone ;;
  contributors <- get tweet "contributors" VNone ;;
  uid <- get user "id_str" VNone ;;
  Ok [null_checker a; null_checker b; null_checker c; null_checker d;
      null_checker e; null_checker f; null_checker g; null_checker h;
      VStr (json_dumps contributors); uid; geo_id].

(** The body of the [try] block after [json.loads]. *)
Definition body_1B (tweet : value) (db : database) : result database :=
  user <- get tweet "user" (VDict []) ;;
  ut <- user_tuple_1B user ;;
  db <- execute insert_user ut db ;;
  geo <- get tweet "geo" VNone ;;
  test <- geo_test_1B geo ;;
  ' (geo_id, db) <-
    (if test then
       ' (geo_id, gt) <- geo_tuple geo ;;
       db <- execute insert_geo gt db ;;
       Ok (geo_id, db)
     else Ok (VNone, db)) ;;
  tw <- tweet_tuple_1B tweet user geo_id ;;
  execute insert_tweet tw db.

Fixpoint loop_1B (lines : list line) (total_tweets : Z) (db : database)
  (tweets_processed : Z) : result (database * Z) :=
  match lines with
  | [] => Ok (db, tweets_processed)
  | l :: rest =>
      if tweets_processed >=? total_tweets then Ok (db, tweets_processed)
      else if strip l then
        match json_loads l with
        | Some tweet =>
            db' <- body_1B tweet db ;;
            loop_1B rest total_tweets db' (tweets_processed + 1)
        | None => loop_1B rest total_tweets db tweets_processed
        end
      else loop_1B rest total_tweets db tweets_processed
  end.

(** Returns the committed store and [tweets_processed]. *)
Definition populate_tables_web_1B (db : database) (lines : list line) (total_tweets : Z)
  : result (database * Z) :=
  loop_1B lines total_tweets db 0.

(** ** [populate_tables_txt_1C] *)

Definition user_tuple (user : value) : result (list value) :=
  a <- subscript user "id_str" ;;
  b <- subscript user "name" ;;
  c <- subscript user "screen_name" ;;
  d <- subscript user "description" ;;
  e <- subscript user "friends_count" ;;
  Ok [null_checker a; null_checker b; null_checker c; null_checker d; null_checker e].

(** The tweet tuple of the two file strategies; [default] is what
    [tweet.get("contributors", ...)] falls back to. *)
Definition tweet_tuple (default : value) (tweet user geo_id : value)
  : result (list value) :=
  a <- subscript tweet "created_at" ;;
  b <- subscript tweet "id_str" ;;
  c <- subscript tweet "text" ;;
  d <- subscript tweet "source" ;;
  e <- get tweet "in_reply_to_user_id_str" VNone ;;
  f <- get tweet "in_reply_to_screen_name" VNone ;;
  g <- get tweet "in_reply_to_status_id_str" VNone ;;
  h <- subscript tweet "retweet_count" ;;
  contributors <- get tweet "contributors" default ;;
  uid <- subscript user "id_str" ;;
  Ok [null_checker a; null_checker b; null_checker c; null_checker d;
      null_checker e; null_checker f; null_checker g; null_checker h;
      VStr (json_dumps contributors); uid; geo_id].

Definition body_1C (tweet : value) (db : database) : result database :=
  user <- subscript tweet "user" ;;
  ut <- user_tuple user ;;
  db <- execute insert_user ut db ;;
  geo <- get tweet "geo" VNone ;;
  ' (geo_id, db) <-
    (if truthy geo then
       ' (geo_id, gt) <- geo_tuple geo ;;
       db <- execute insert_geo gt db ;;
       Ok (geo_id, db)
     else Ok (VNone, db)) ;;
  tw <- tweet_tuple (VList []) tweet user geo_id ;;
  execute insert_tweet tw db.

Fixpoint loop_1C (lines : list line) (total_tweets : Z) (db : database)
  (tweets_processed errors_encountered : Z) : result (database * Z * Z) :=
  match lines with
  | [] => Ok (db, tweets_processed, errors_encountered)
  | l :: rest =>
      if tweets_processed >=? total_tweets
      then Ok (db, tweets_processed, errors_encountered)
      else
        match json_loads l with
        | Some tweet =>
            db' <- body_1C tweet db ;;
            loop_1C rest total_tweets db' (tweets_processed + 1) errors_encountered
        | None =>
            loop_1C rest total_tweets db tweets_processed (errors_encountered + 1)
        end
  end.

(** Returns the committed store, [tweets_processed] and [errors_encountered]. *)
Definition populate_tables_txt_1C (db : database) (lines : list line) (total_tweets : Z)
  : result (database * Z * Z) :=
  loop_1C lines total_tweets db 0 0.

(** ** [batch_insert_data_1D] *)

Record state_1D : Type := mkst {
  store : database;
  users_batch : list (list value);
  geo_batch : list (list value);
  tweets_batch : list (list value);
  tweets_processed : Z;
  errors_encountered : Z
}.

(** The three [executemany] calls of a flush. *)
Definition flush (db : database) (ub gb tb : list (list value)) : result database :=
  db <- executemany insert_user ub db ;;
  db <- executemany insert_geo gb db ;;
  executemany insert_tweet tb db.

Definition is_empty {A : Type} (l : list A) : bool :=
  match l with
  | [] => true
  | _ => false
  end.

Definition len {A : Type} (l : list A) : Z := Z.of_nat (List.length l).

(** The body of the [try] block after [json.loads]. *)
Definition body_1D (batch_size : Z) (tweet : value) (st : state_1D) : result state_1D :=
  user <- subscript tweet "user" ;;
  ut <- user_tuple user ;;
  let users_batch := (users_batch st ++ [ut])%list in
  geo <- get tweet "geo" VNone ;;
  ' (geo_id, geo_batch) <-
    (if truthy geo then
       ' (geo_id, gt) <- geo_tuple geo ;;
       Ok (geo_id, (geo_batch st ++ [gt])%list)
     else Ok (VNone, geo_batch st)) ;;
  tw <- tweet_tuple VNone tweet user geo_id ;;
  let tweets_batch := (tweets_batch st ++ [tw])%list in
  let tweets_processed := tweets_processed st + 1 in
  if (len users_batch >=? batch_size) || (len tweets_batch >=? batch_size) then
    db <- flush (store st) users_batch geo_batch tweets_batch ;;
    Ok (mkst db [] [] [] tweets_processed (errors_encountered st))
  else
    Ok (mkst (store st) users_batch geo_batch tweets_batch tweets_processed
          (errors_encountered st)).

Fixpoint loop_1D (lines : list line) (total_tweets batch_size : Z) (st : state_1D)
  : result state_1D :=
  match lines with
  | [] => Ok st
  | l :: rest =>
      if tweets_processed st >=? total_tweets then Ok st
      else
        match json_loads l with
        | Some tweet =>
            st' <- body_1D batch_size tweet st ;;
            loop_1D rest total_tweets batch_size st'
        | None =>
            loop_1D rest total_tweets batch_size
              (mkst (store st) (users_batch st) (geo_batch st) (tweets_batch st)
                 (tweets_processed st) (errors_encountered st + 1))
        end
  end.

(** The flush of what is left after the loop. *)
Definition final_flush (st : state_1D) : result (database * Z * Z) :=
  if negb (is_empty (users_batch st)) || negb (is_empty (geo_batch st))
     || negb (is_empty (tweets_batch st))
  then
    db <- flush (store st) (users_batch st) (geo_batch st) (tweets_batch st) ;;
    Ok (db, tweets_processed st, errors_encountered st)
  else Ok (store st, tweets_processed st, errors_encountered st).

(** Returns the committed store, [tweets_processed] and [errors_encountered]. *)
Definition batch_insert_data_1D (db : database) (lines : list line)
  (total_tweets batch_size : Z) : result (database * Z * Z) :=
  st <- loop_1D lines total_tweets batch_size (mkst db [] [] [] 0 0) ;;
  final_flush st.

(** ** [execute_query_iterations_2B] *)

(** [runtime_results[k] = v] on a dict kept as its items in insertion order. *)
Fixpoint dict_set {V : Type} (k : Z) (v : V) (d : list (Z * V)) : list (Z * V) :=
  match d with
  | [] => [(k, v)]
  | (k', v') :: rest => if k' =? k then (k, v) :: rest else (k', v') :: dict_set k v rest
  end.

(** The loop inside the timed region: one [conn.execute(query)] per element
    of [iteration_counts], its loop variable being [count] again.  Returns
    the value [count] is left with and the number of executions so far. *)
Fixpoint timed_loop (iteration_counts : list Z) (count : Z) (executions : nat)
  : Z * nat :=
  match iteration_counts with
  | [] => (count, executions)
  | c :: rest => timed_loop rest c (S executions)
  end.

(** The outer loop over the iteration counts still to measure.  A timed
    region is measured by the number of query executions it holds; the
    report line divides by [count]. *)
Fixpoint measure_2B (pending iteration_counts : list Z) (runtime_results : list (Z * nat))
  : result (list (Z * nat)) :=
  match pending with
  | [] => Ok runtime_results
  | count :: rest =>
      let '(count, total_runtime) := timed_loop iteration_counts count 0 in
      let runtime_results := dict_set count total_runtime runtime_results in
      if count =? 0 then Raise ZeroDivisionError
      else measure_2B rest iteration_counts runtime_results
  end.

Definition execute_query_iterations_2B (iteration_counts : list Z)
  : result (list (Z * nat)) :=
  measure_2B iteration_counts iteration_counts [].

(** ** [save_first_n_tweets_to_file_1A] *)

(** The lines written to the file, in order, from the lines of the response. *)
Fixpoint save_loop (n : Z) (response : list line) (line_count : Z) : list line :=
  match response with
  | [] => []
  | l :: rest =>
      if line_count <? n then l :: save_loop n rest (line_count + 1) else []
  end.

Definition save_first_n_tweets_to_file_1A (n : Z) (response : list line) : list line :=
  save_loop n response 0.

(** ** [execute_and_report_queries] *)

(** What the function prints. *)
Inductive printed : Type :=
| Completed (description : string)
| FirstValue (description : string) (v : sqlval)
| Runtime (description : string)
| TotalRuntime.

(** [a or b]. *)
Definition py_or (a b : value) : value := if truthy a then a else b.

(** The condition of the [if]: ["CREATE TABLE" or "INSERT" or "DELETE" or
    ("UPDATE" in query.upper())]. *)
Definition commit_test (upper : string -> string) (query : string) : value :=
  py_or (VStr "CREATE TABLE")
    (py_or (VStr "INSERT")
       (py_or (VStr "DELETE") (VBool (is_substring "UPDATE" (upper query))))).

(** The loop over [queries.items()].  The query engine is a parameter:
    [execute_sql query conn] gives the connection after [cursor.execute] and
    the rows of the result set, [None] when the statement has none;
    [commit] is [conn.commit()]; [upper] is [str.upper]. *)
Fixpoint report_loop {S : Type}
  (execute_sql : string -> S -> result (S * option (list row)))
  (commit : S -> S) (upper : string -> string)
  (queries : list (string * string)) (conn : S) : result (S * list printed) :=
  match queries with
  | [] => Ok (conn, [])
  | (description, query) :: rest =>
      ' (conn, cursor) <- execute_sql query conn ;;
      let '(conn, out) :=
        if truthy (commit_test upper query) then (commit conn, [Completed description])
        else
          let result := match cursor with
                        | Some (r :: _) => Some r
                        | _ => None
                        end in
          (conn, match result with
                 | Some (v :: _) => [FirstValue description v]
                 | _ => []
                 end) in
      ' (conn, out') <- report_loop execute_sql commit upper rest conn ;;
      Ok (conn, (out ++ [Runtime description] ++ out')%list)
  end.

(** Returns the connection as committed at the end and what was printed. *)
Definition execute_and_report_queries {S : Type}
  (execute_sql : string -> S -> result (S * option (list row)))
  (commit : S -> S) (upper : string -> string)
  (queries : list (string * string)) (conn : S) : result (S * list printed) :=
  ' (conn, out) <- report_loop execute_sql commit upper queries conn ;;
  Ok (commit conn, (out ++ [TotalRuntime])%list).

(** ** [execute_python_iterations_2C] *)

(** Lists and dicts cannot be dict keys. *)
Definition hashable (v : value) : bool :=
  match v with
  | VList _ | VDict _ => false
  | _ => true
  end.

(** [user_geo_data]: per key, the longitude and the latitude lists, items in
    insertion order.  [key_eqb] is the equality of dict keys. *)
Definition geo_data : Type := list (value * (list value * list value)).

(** The entry is created when the key is new, then both lists are appended
    to. *)
Fixpoint add_point (key_eqb : value -> value -> bool)
  (user_id longitude latitude : value) (data : geo_data) : geo_data :=
  match data with
  | [] => [(user_id, ([longitude], [latitude]))]
  | (k, (longitudes, latitudes)) :: rest =>
      if key_eqb k user_id
      then (k, ((longitudes ++ [longitude])%list, (latitudes ++ [latitude])%list)) :: rest
      else (k, (longitudes, latitudes)) :: add_point key_eqb user_id longitude latitude rest
  end.

(** The body of the [try] block after [json.loads]. *)
Definition body_2C (key_eqb : value -> value -> bool) (tweet : value) (data : geo_data)
  : result geo_data :=
  geo <- get tweet "geo" VNone ;;
  test <- geo_test_1B geo ;;
  if test then
    user <- subscript tweet "user" ;;
    user_id <- subscript user "id_str" ;;
    coords <- subscript geo "coordinates" ;;
    ' (longitude, latitude) <- unpack2 coords ;;
    if hashable user_id then Ok (add_point key_eqb user_id longitude latitude data)
    else Raise TypeError
  else Ok data.

(** One reading of the file. *)
Fixpoint pass_2C (key_eqb : value -> value -> bool) (lines : list line) (data : geo_data)
  : result geo_data :=
  match lines with
  | [] => Ok data
  | l :: rest =>
      match json_loads l with
      | Some tweet =>
          data' <- body_2C key_eqb tweet data ;;
          pass_2C key_eqb rest data'
      | None => pass_2C key_eqb rest data
      end
  end.

(** [for iterations in range(count)]. *)
Fixpoint passes_2C (key_eqb : value -> value -> bool) (iterations : nat)
  (lines : list line) (data : geo_data) : result geo_data :=
  match iterations with
  | O => Ok data
  | S k =>
      data' <- pass_2C key_eqb lines data ;;
      passes_2C key_eqb k lines data'
  end.

(** The loop over the iteration counts.  A timed region is measured by the
    number of readings of the file it holds; the report line divides by
    [count]. *)
Fixpoint measure_2C (key_eqb : value -> value -> bool) (lines : list line)
  (pending : list Z) (runtime_results : list (Z * nat)) : result (list (Z * nat)) :=
  match pending with
  | [] => Ok runtime_results
  | count :: rest =>
      _ <- passes_2C key_eqb (Z.to_nat count) lines [] ;;
      let runtime_results := dict_set count (Z.to_nat count) runtime_results in
      if count =? 0 then Raise ZeroDivisionError
      else measure_2C key_eqb lines rest runtime_results
  end.

Definition execute_python_iterations_2C (key_eqb : value -> value -> bool)
  (lines : list line) (iteration_counts : list Z) : result (list (Z * nat)) :=
  measure_2C key_eqb lines iteration_counts [].

(** ** The joined table of [main] and [export_tables_to_json_3B] *)

(** [a = b] in an ON clause: never true on NULL. *)
Definition sql_eq (a b : sqlval) : bool :=
  match a, b with
  | SNull, _ | _, SNull => false
  | _, _ => sqlval_eqb a b
  end.

(** [left LEFT JOIN right ON on]: a left row without a match is completed
    with [width] NULLs. *)
Definition left_join (on : row -> row -> bool) (width : nat) (left right : table) : table :=
  flat_map
    (fun l =>
       match filter (on l) right with
       | [] => [(l ++ repeat SNull width)%list]
       | matches => map (fun r => (l ++ r)%list) matches
       end)
    left.

(** The SELECT list of [query_joined_table_mv] over the 11 TWEET, 5 USER
    and 4 GEO columns of a joined row: TWEET.*, then name, screen_name,
    description, friends_count of USER, then type, longitude, latitude of
    GEO. *)
Definition select_joined (j : row) : row :=
  (firstn 11 j ++ map (fun i => nth i j SNull) [12; 13; 14; 15; 17; 18; 19]%nat)%list.

(** TWEET LEFT JOIN USER ON TWEET.user_id = USER.id
    LEFT JOIN GEO ON TWEET.geo_id = GEO.geo_id. *)
Definition all_tweets_joined (db : database) : table :=
  map select_joined
    (left_join (fun j g => sql_eq (nth 10 j SNull) (nth 0 g SNull)) 4
       (left_join (fun t u => sql_eq (nth 9 t SNull) (nth 0 u SNull)) 5
          (TWEET db) (USER db))
       (GEO db)).

(** CREATE TABLE IF NOT EXISTS All_Tweets_Joined_MV AS SELECT ...: a table
    that is already there is left as it is. *)
Definition create_joined_table (existing : option table) (db : database) : table :=
  match existing with
  | Some t => t
  | None => all_tweets_joined db
  end.

(** The two lists of [json_data], each entry a dict kept as its items.  A
    row of SELECT * has the columns of its table, so the indices are in
    range. *)
Definition export_tables_to_json_3B (tweets joined : table)
  : list (list (string * sqlval)) * list (list (string * sqlval)) :=
  (map (fun tweet =>
          [("created_at", nth 0 tweet SNull); ("id_str", nth 1 tweet SNull);
           ("text", nth 2 tweet SNull)])
       tweets,
   map (fun tweet =>
          [("created_at", nth 0 tweet SNull); ("user_name", nth 11 tweet SNull);
           ("screen_name", nth 12 tweet SNull);
           ("user_description", nth 13 tweet SNull);
           ("friends_count", nth 14 tweet SNull); ("geo_type", nth 15 tweet SNull);
           ("longitude", nth 16 tweet SNull); ("latitude", nth 17 tweet SNull)])
       joined).

(** * Definitions used to state the properties *)

(** The rows a batch binds to, when every parameter can be bound. *)
Fixpoint bind_batch (batch : list (list value)) : result (list row) :=
  match batch with
  | [] => Ok []
  | params :: rest =>
      r <- bind_params params ;;
      rs <- bind_batch rest ;;
      Ok (r :: rs)
  end.

Definition insert_rows (pk : nat) (rs : list row) (t : table) : table :=
  fold_left (fun t r => insert_or_ignore pk r t) rs t.

(** The row a relation keeps of a bound row. *)
Definition stored (rel : relation) (r : row) : row := coerce (columns rel) r.

(** The store after the bound rows have been inserted. *)
Definition store_rows (db : database) (ur gr tr : list row) : database :=
  mkdb (insert_rows (primary_key User) (map (stored User) ur) (USER db))
       (insert_rows (primary_key Geo) (map (stored Geo) gr) (GEO db))
       (insert_rows (primary_key Tweet) (map (stored Tweet) tr) (TWEET db)).

(** The tuples one record contributes in the two file strategies: the USER
    tuple, the GEO tuples (none or one) and the TWEET tuple. *)
Definition tuples (default : value) (tweet : value)
  : result (list value * list (list value) * list value) :=
  user <- subscript tweet "user" ;;
  ut <- user_tuple user ;;
  geo <- get tweet "geo" VNone ;;
  ' (geo_id, gts) <-
    (if truthy geo then
       ' (geo_id, gt) <- geo_tuple geo ;;
       Ok (geo_id, [gt])
     else Ok (VNone, [])) ;;
  tw <- tweet_tuple default tweet user geo_id ;;
  Ok (ut, gts, tw).

(** The same for the network strategy. *)
Definition tuples_1B (tweet : value)
  : result (list value * list (list value) * list value) :=
  user <- get tweet "user" (VDict []) ;;
  ut <- user_tuple_1B user ;;
  geo <- get tweet "geo" VNone ;;
  test <- geo_test_1B geo ;;
  ' (geo_id, gts) <-
    (if test then
       ' (geo_id, gt) <- geo_tuple geo ;;
       Ok (geo_id, [gt])
     else Ok (VNone, [])) ;;
  tw <- tweet_tuple_1B tweet user geo_id ;;
  Ok (ut, gts, tw).

(** The loop shared by the strategies, writes left out: the tuples of the
    records it processes, in order, and the two counters. *)
Fixpoint gather (tuples_of : value -> result (list value * list (list value) * list value))
  (lines : list line) (total_tweets p e : Z)
  : result (list (list value) * list (list value) * list (list value) * Z * Z) :=
  match lines with
  | [] => Ok ([], [], [], p, e)
  | l :: rest =>
      if p >=? total_tweets then Ok ([], [], [], p, e)
      else
        match json_loads l with
        | Some tweet =>
            ' (ut, gts, tw) <- tuples_of tweet ;;
            ' (ub, gb, tb, p', e') <- gather tuples_of rest total_tweets (p + 1) e ;;
            Ok (ut :: ub, (gts ++ gb)%list, tw :: tb, p', e')
        | None => gather tuples_of rest total_tweets p (e + 1)
        end
  end.

(** What [body_1D] does with the tuples of a record: append, count, and flush
    when a batch has reached [batch_size]. *)
Definition push (batch_size : Z) (st : state_1D) (ut : list value)
  (gts : list (list value)) (tw : list value) : result state_1D :=
  let users_batch := (users_batch st ++ [ut])%list in
  let geo_batch := (geo_batch st ++ gts)%list in
  let tweets_batch := (tweets_batch st ++ [tw])%list in
  let tweets_processed := tweets_processed st + 1 in
  if (len users_batch >=? batch_size) || (len tweets_batch >=? batch_size) then
    db <- flush (store st) users_batch geo_batch tweets_batch ;;
    Ok (mkst db [] [] [] tweets_processed (errors_encountered st))
  else
    Ok (mkst (store st) users_batch geo_batch tweets_batch tweets_processed
          (errors_encountered st)).


(** The value found under a key of a decoded object, [default] when the key
    or the object is not there. *)
Definition field_or (default : value) (obj : value) (k : string) : value :=
  match obj with
  | VDict items =>
      match lookup k items with
      | Some v => v
      | None => default
      end
  | _ => default
  end.

Definition field (obj : value) (k : string) : value := field_or VNone obj k.

Definition user_columns : list string :=
  ["id_str"; "name"; "screen_name"; "description"; "friends_count"].

Definition tweet_columns : list string :=
  ["created_at"; "id_str"; "text"; "source"; "in_reply_to_user_id_str";
   "in_reply_to_screen_name"; "in_reply_to_status_id_str"; "retweet_count"].

(** The record carries a "contributors" key (or is no object at all). *)
Definition has_contributors (v : value) : Prop :=
  match v with
  | VDict items => lookup "contributors" items <> None
  | _ => True
  end.

(** The keys the file strategies read with [tweet[...]]. *)
Definition required_tweet_keys : list string :=
  ["created_at"; "id_str"; "text"; "source"; "retweet_count"].

(** Decoded records that lack the "user" object, a key read by subscript, the
    "coordinates" of a true "geo" object, or two coordinates to unpack. *)
Inductive malformed_record : value -> Prop :=
| no_user items :
    lookup "user" items = None ->
    malformed_record (VDict items)
| no_user_key items uitems k :
    lookup "user" items = Some (VDict uitems) ->
    In k user_columns ->
    lookup k uitems = None ->
    malformed_record (VDict items)
| no_tweet_key items k :
    In k required_tweet_keys ->
    lookup k items = None ->
    malformed_record (VDict items)
| no_coordinates items gitems :
    lookup "geo" items = Some (VDict gitems) ->
    gitems <> [] ->
    lookup "coordinates" gitems = None ->
    malformed_record (VDict items)
| no_pair items gitems coords :
    lookup "geo" items = Some (VDict gitems) ->
    lookup "coordinates" gitems = Some coords ->
    (forall a b, iterate coords <> Ok [a; b]) ->
    malformed_record (VDict items).

(** The decoded object has no key [k]. *)
Definition lacks (k : string) (obj : value) : Prop :=
  match obj with
  | VDict items => lookup k items = None
  | _ => False
  end.

(** ** The insert-based strategies, taken together *)

Inductive strategy : Type :=
| Web_1B
| Txt_1C
| Batch_1D (batch_size : Z).

(** The committed store, the success counter and, where the strategy keeps
    one, the error counter. *)
Definition run (s : strategy) (db : database) (lines : list line) (total_tweets : Z)
  : result (database * Z * option Z) :=
  match s with
  | Web_1B =>
      ' (db', p) <- populate_tables_web_1B db lines total_tweets ;;
      Ok (db', p, None)
  | Txt_1C =>
      ' (db', p, e) <- populate_tables_txt_1C db lines total_tweets ;;
      Ok (db', p, Some e)
  | Batch_1D batch_size =>
      ' (db', p, e) <- batch_insert_data_1D db lines total_tweets batch_size ;;
      Ok (db', p, Some e)
  end.

(** The store an invocation commits; [None] when it ends with an exception. *)
Definition ingest (s : strategy) (db : database) (lines : list line) (total_tweets : Z)
  : option database :=
  match content (run s db lines total_tweets) with
  | Some (db', _, _) => Some db'
  | None => None
  end.

Definition tuples_of (s : strategy) : value -> result (list value * list (list value) * list value) :=
  match s with
  | Web_1B => tuples_1B
  | Txt_1C => tuples (VList [])
  | Batch_1D _ => tuples VNone
  end.

Definition file_based (s : strategy) : bool :=
  match s with
  | Web_1B => false
  | _ => true
  end.

(** The error counter as [run] reports it. *)
Definition counter (s : strategy) (e : Z) : option Z :=
  if file_based s then Some e else None.

(** The values a record gives for the two primary keys USER.id and
    TWEET.id_str. *)
Definition user_key (r : value) : value :=
  null_checker (field (field r "user") "id_str").

Definition post_key (r : value) : value :=
  null_checker (field r "id_str").

(** The decoded records of a source, the lines [json.loads] rejects, and the
    sources whose last line, if any, is a record. *)
Definition records (lines : list line) : list value :=
  flat_map (fun l => match json_loads l with Some v => [v] | None => [] end) lines.

Definition undecodable (lines : list line) : list line :=
  filter (fun l => match json_loads l with Some _ => false | None => true end) lines.

Definition is_record (l : line) : bool :=
  match l with
  | Json _ => true
  | _ => false
  end.

Definition ends_with_record (lines : list line) : bool :=
  is_record (last lines (Json VNone)).

(** The strategy ingests the record, alone, into the fresh tables. *)
Definition ingestible (s : strategy) (v : value) : Prop :=
  ingest s create_tables [Json v] 1 <> None.

(** ** Keys of a table *)

Definition has_key (pk : nat) (k : sqlval) (t : table) : bool :=
  existsb (fun r => sqlval_eqb (key pk r) k) t.

Definition key_count (pk : nat) (k : sqlval) (t : table) : nat :=
  List.length (filter (fun r => sqlval_eqb (key pk r) k) t).

(** No two rows of the table share a key other than NULL. *)
Definition unique_keys (pk : nat) (t : table) : Prop :=
  forall k, k <> SNull -> (key_count pk k t <= 1)%nat.

Definition well_keyed (db : database) : Prop :=
  unique_keys (primary_key User) (USER db) /\
  unique_keys (primary_key Geo) (GEO db) /\
  unique_keys (primary_key Tweet) (TWEET db).

(** ** Sample records *)

Definition actor (id : value) : value :=
  VDict [("id_str", id); ("name", VStr "Ann"); ("screen_name", VStr "ann");
         ("description", VStr ""); ("friends_count", VInt 7)].

Definition point (longitude latitude : value) : value :=
  VDict [("type", VStr "Point"); ("coordinates", VList [longitude; latitude])].

Definition post (id user geo : value) : value :=
  VDict [("created_at", VStr "Mon Apr 01 10:00:00 +0000 2013"); ("id_str", id);
         ("text", VStr "hello"); ("source", VStr "web"); ("retweet_count", VInt 0);
         ("contributors", VNone); ("user", user); ("geo", geo)].

(** The record with one key removed. *)
Definition without (k : string) (obj : value) : value :=
  match obj with
  | VDict items => VDict (filter (fun kv => negb (String.eqb (fst kv) k)) items)
  | _ => obj
  end.

Definition here : value := point (VFloat "10.0") (VFloat "20.0").
Definition post_1 : value := post (VStr "1") (actor (VStr "42")) here.
Definition post_2 : value := post (VStr "2") (actor (VStr "42")) here.

(** The store after [populate_tables_txt_1C] has ingested [post_1] into the
    fresh tables. *)
Definition store_after_post_1 : database :=
  mkdb [[SText "42"; SText "Ann"; SText "ann"; SNull; SInt 7]]
       [[SText "10.0_20.0"; SText "Point"; SReal "10.0"; SReal "20.0"]]
       [[SText "Mon Apr 01 10:00:00 +0000 2013"; SText "1"; SText "hello";
         SText "web"; SNull; SNull; SNull; SInt 0; SText "null"; SText "42";
         SText "10.0_20.0"]].

(** ** Invariants of the store *)

(** Every TWEET row refers to no GEO row or to one that is there. *)
Definition geo_ref (db : database) : Prop :=
  Forall (fun t => nth 10 t SNull = SNull \/
                   has_key (primary_key Geo) (nth 10 t SNull) (GEO db) = true)
         (TWEET db).

(** Every TWEET row refers to a USER row that is there, unless its user_id
    is NULL or one of the two texts [null_checker] replaces. *)
Definition user_ref (db : database) : Prop :=
  Forall (fun t => nth 9 t SNull = SNull \/ nth 9 t SNull = SText "NULL" \/
                   nth 9 t SNull = SText "" \/
                   has_key (primary_key User) (nth 9 t SNull) (USER db) = true)
         (TWEET db).

(** The batches waiting for a flush hold fewer tuples than the batch size
    (than one, when the batch size is not positive). *)
Definition pending_bound (batch_size : Z) (st : state_1D) : Prop :=
  len (users_batch st) = len (tweets_batch st) /\
  len (geo_batch st) <= len (tweets_batch st) /\
  len (tweets_batch st) < Z.max batch_size 1.

(** ** Records on which the strategies cannot differ *)

Definition has_keys (ks : list string) (obj : value) : bool :=
  match obj with
  | VDict items =>
      forallb (fun k => match lookup k items with Some _ => true | None => false end) ks
  | _ => false
  end.

(** No "geo" to speak of, or an object whose coordinates are two numbers. *)
Definition numeric_pair_or_absent (geo : value) : bool :=
  negb (truthy geo) ||
  match geo with
  | VDict items =>
      match lookup "coordinates" items with
      | Some (VList [a; b]) => is_number a && is_number b
      | _ => false
      end
  | _ => false
  end.

(** The record has every key a file strategy reads by subscript, a
    "contributors" key, a "user" object with the five user keys, and a "geo"
    that all strategies treat alike. *)
Definition complete_record (v : value) : bool :=
  has_keys (required_tweet_keys ++ ["contributors"; "user"])%list v &&
  has_keys user_columns (field v "user") &&
  numeric_pair_or_absent (field v "geo").

(** The committed store and the success counter; [None] when the invocation
    ends with an exception. *)
Definition outcome (s : strategy) (db : database) (lines : list line) (total_tweets : Z)
  : option (database * Z) :=
  match content (run s db lines total_tweets) with
  | Some (db', p, _) => Some (db', p)
  | None => None
  end.

(** ** Running queries without the test on their text *)

(** Every query executed and committed, in order. *)
Fixpoint run_all {S : Type}
  (execute_sql : string -> S -> result (S * option (list row)))
  (commit : S -> S) (queries : list (string * string)) (conn : S) : result S :=
  match queries with
  | [] => Ok conn
  | (_, query) :: rest =>
      ' (conn, _) <- execute_sql query conn ;;
      run_all execute_sql commit rest (commit conn)
  end.

(** A completion line and a runtime line per query, then the total. *)
Definition completed_report (queries : list (string * string)) : list printed :=
  (flat_map (fun q => [Completed (fst q); Runtime (fst q)]) queries
   ++ [TotalRuntime])%list.

(** ** What [execute_python_iterations_2C] gathers *)

(** The number of longitudes held by [user_geo_data]. *)
Definition points (data : geo_data) : nat :=
  fold_right (fun e n => (List.length (fst (snd e)) + n)%nat) 0%nat data.

(** Every entry holds as many latitudes as longitudes. *)
Definition paired (data : geo_data) : Prop :=
  Forall (fun e => List.length (fst (snd e)) = List.length (snd (snd e))) data.

(** A line that decodes to a record passing the test on its [geo]. *)
Definition with_coordinates (l : line) : bool :=
  match json_loads l with
  | Some tweet =>
      match (geo <- get tweet "geo" VNone ;; geo_test_1B geo) with
      | Ok true => true
      | _ => false
      end
  | None => false
  end.

(** One reading of the file raises nothing, whatever was gathered before. *)
Definition readable (key_eqb : value -> value -> bool) (lines : list line) : Prop :=
  forall data, exists data', pass_2C key_eqb lines data = Ok data'.

(** Equality of dict keys that are strings. *)
Definition text_keys (a b : value) : bool :=
  match a, b with
  | VStr x, VStr y => String.eqb x y
  | _, _ => false
  end.

(** ** Reading the joined table *)

(** Every row has the columns of its table: 5, 4 and 11. *)
Definition well_shaped (db : database) : Prop :=
  Forall (fun r => List.length r = 5%nat) (USER db) /\
  Forall (fun r => List.length r = 4%nat) (GEO db) /\
  Forall (fun r => List.length r = 11%nat) (TWEET db).

(** The first row of [t] whose column [pk] equals [k], or [width] NULLs. *)
Definition matching (pk width : nat) (k : sqlval) (t : table) : row :=
  match find (fun r => sql_eq k (nth pk r SNull)) t with
  | Some r => r
  | None => repeat SNull width
  end.

(** The entry of a TWEET row, read from the USER and GEO rows it refers to. *)
Definition joined_entry (db : database) (t : row) : list (string * sqlval) :=
  let u := matching (primary_key User) 5 (nth 9 t SNull) (USER db) in
  let g := matching (primary_key Geo) 4 (nth 10 t SNull) (GEO db) in
  [("created_at", nth 0 t SNull); ("user_name", nth 1 u SNull);
   ("screen_name", nth 2 u SNull); ("user_description", nth 3 u SNull);
   ("friends_count", nth 4 u SNull); ("geo_type", nth 1 g SNull);
   ("longitude", nth 2 g SNull); ("latitude", nth 3 g SNull)].

(** ** What a column keeps of a source field *)


(** * Lemmas on the store *)

Lemma content_bind {A B : Type} (r : result A) (k : A -> result B) :
  content (bind r k) =
  match content r with
  | Some a => content (k a)
  | None => None
  end.
Proof. destruct r; reflexivity. Qed.

Lemma rows_set_rows rel t db : rows rel (set_rows rel t db) = t.
Proof. destruct rel; reflexivity. Qed.

Lemma set_rows_twice rel t t' db :
  set_rows rel t' (set_rows rel t db) = set_rows rel t' db.
Proof. destruct rel; reflexivity. Qed.

Lemma set_rows_same rel db : set_rows rel (rows rel db) db = db.
Proof. destruct rel, db; reflexivity. Qed.

Lemma apply_affinity_null a x : apply_affinity a x = SNull <-> x = SNull.
Proof. destruct a, x; simpl; split; intros H; try discriminate; reflexivity. Qed.

Lemma nth_coerce affinities : forall r i a,
  nth_error affinities i = Some a ->
  nth i (coerce affinities r) SNull = apply_affinity a (nth i r SNull).
Proof.
  induction affinities as [|a0 affinities IH]; intros r i a H.
  - destruct i; discriminate.
  - destruct r as [|x r]; simpl.
    + destruct i; symmetry; now apply apply_affinity_null.
    + destruct i as [|i]; simpl in *; [now inversion H|now apply IH].
Qed.

Lemma coerce_length affinities : forall r,
  List.length (coerce affinities r) = List.length r.
Proof.
  induction affinities as [|a affinities IH]; intros [|x r]; simpl; try reflexivity.
  now rewrite IH.
Qed.

(** The key a table keeps is the text of the bound key. *)
Lemma key_stored rel r :
  key (primary_key rel) (stored rel r) =
  apply_affinity TEXT (key (primary_key rel) r).
Proof. unfold key, stored. apply nth_coerce. now destruct rel. Qed.

Lemma key_stored_null rel r :
  key (primary_key rel) (stored rel r) = SNull <-> key (primary_key rel) r = SNull.
Proof. rewrite key_stored. apply apply_affinity_null. Qed.

Lemma stored_key_again rel r r' :
  key (primary_key rel) r <> SNull ->
  key (primary_key rel) r' = key (primary_key rel) r ->
  key (primary_key rel) (stored rel r) <> SNull /\
  key (primary_key rel) (stored rel r') = key (primary_key rel) (stored rel r).
Proof.
  intros N E. split.
  - intros Q. apply -> key_stored_null in Q. contradiction.
  - now rewrite !key_stored, E.
Qed.

Lemma executemany_spec rel batch : forall db,
  executemany (INSERT_OR_IGNORE_INTO rel) batch db =
  (rs <- bind_batch batch ;;
   Ok (set_rows rel
         (insert_rows (primary_key rel) (map (stored rel) rs) (rows rel db)) db)).
Proof.
  induction batch as [|params rest IH]; intros db; simpl.
  - now rewrite set_rows_same.
  - unfold execute. destruct (bind_params params) as [r|e]; simpl; [|reflexivity].
    rewrite IH. destruct (bind_batch rest) as [rs|e]; simpl; [|reflexivity].
    now rewrite rows_set_rows, set_rows_twice.
Qed.

Lemma flush_spec db ub gb tb :
  flush db ub gb tb =
  (ur <- bind_batch ub ;;
   gr <- bind_batch gb ;;
   tr <- bind_batch tb ;;
   Ok (store_rows db ur gr tr)).
Proof.
  unfold flush, insert_user, insert_geo, insert_tweet, insert_statements; simpl.
  rewrite executemany_spec.
  destruct (bind_batch ub) as [ur|e]; simpl; [|reflexivity].
  rewrite executemany_spec.
  destruct (bind_batch gb) as [gr|e]; simpl; [|reflexivity].
  rewrite executemany_spec.
  destruct (bind_batch tb) as [tr|e]; simpl; [|reflexivity].
  reflexivity.
Qed.

Lemma bind_batch_app a b :
  content (bind_batch (a ++ b)) =
  match content (bind_batch a), content (bind_batch b) with
  | Some ra, Some rb => Some (ra ++ rb)%list
  | _, _ => None
  end.
Proof.
  induction a as [|params a IH]; simpl.
  - destruct (bind_batch b); reflexivity.
  - destruct (bind_params params); simpl; [|reflexivity].
    rewrite content_bind, IH.
    destruct (bind_batch a), (bind_batch b); reflexivity.
Qed.

Lemma insert_rows_app pk a b t :
  insert_rows pk (a ++ b) t = insert_rows pk b (insert_rows pk a t).
Proof. apply fold_left_app. Qed.

Lemma content_flush db ub gb tb :
  content (flush db ub gb tb) =
  match content (bind_batch ub), content (bind_batch gb), content (bind_batch tb) with
  | Some ur, Some gr, Some tr => Some (store_rows db ur gr tr)
  | _, _, _ => None
  end.
Proof.
  rewrite flush_spec.
  destruct (bind_batch ub), (bind_batch gb), (bind_batch tb); reflexivity.
Qed.

(** Two flushes in a row leave what one flush of the joined batches leaves. *)
Lemma content_flush_app db u1 g1 t1 u2 g2 t2 :
  content (flush db (u1 ++ u2) (g1 ++ g2) (t1 ++ t2)) =
  match content (flush db u1 g1 t1) with
  | Some db' => content (flush db' u2 g2 t2)
  | None => None
  end.
Proof.
  rewrite !content_flush, !bind_batch_app.
  destruct (content (bind_batch u1)), (content (bind_batch g1)),
    (content (bind_batch t1));
    rewrite ?content_flush;
    repeat match goal with
      | |- context [content (bind_batch ?x)] => destruct (content (bind_batch x))
      end; try reflexivity.
  unfold store_rows; simpl. now rewrite !map_app, !insert_rows_app.
Qed.

(** * The loops, as one pass that gathers tuples and one flush *)

Lemma bind_assoc {A B C : Type} (r : result A) (f : A -> result B) (g : B -> result C) :
  bind (bind r f) g = bind r (fun a => bind (f a) g).
Proof. destruct r; reflexivity. Qed.

Lemma body_1D_push batch_size tweet st :
  body_1D batch_size tweet st =
  (' (ut, gts, tw) <- tuples VNone tweet ;; push batch_size st ut gts tw).
Proof.
  unfold body_1D, tuples, push.
  destruct (subscript tweet "user") as [user|]; simpl; [|reflexivity].
  destruct (user_tuple user) as [ut|]; simpl; [|reflexivity].
  destruct (get tweet "geo" VNone) as [geo|]; simpl; [|reflexivity].
  destruct (truthy geo).
  - destruct (geo_tuple geo) as [[geo_id gt]|]; simpl; [|reflexivity].
    destruct (tweet_tuple VNone tweet user geo_id); reflexivity.
  - simpl. destruct (tweet_tuple VNone tweet user VNone); simpl;
      rewrite ?app_nil_r; reflexivity.
Qed.

Lemma final_flush_spec st :
  content (final_flush st) =
  content (db <- flush (store st) (users_batch st) (geo_batch st) (tweets_batch st) ;;
           Ok (db, tweets_processed st, errors_encountered st)).
Proof.
  unfold final_flush.
  destruct (users_batch st), (geo_batch st), (tweets_batch st); reflexivity.
Qed.

Lemma loop_1D_gather lines total batch_size : forall st,
  content (st' <- loop_1D lines total batch_size st ;; final_flush st') =
  content
    (' (ub, gb, tb, p, e) <-
       gather (tuples VNone) lines total (tweets_processed st) (errors_encountered st) ;;
     db <- flush (store st) (users_batch st ++ ub) (geo_batch st ++ gb)
             (tweets_batch st ++ tb) ;;
     Ok (db, p, e)).
Proof.
  induction lines as [|l rest IH]; intros st.
  - simpl. rewrite !app_nil_r. apply final_flush_spec.
  - simpl. destruct (tweets_processed st >=? total).
    + simpl. rewrite !app_nil_r. apply final_flush_spec.
    + destruct (json_loads l) as [tweet|].
      * rewrite body_1D_push.
        destruct (tuples VNone tweet) as [[[ut gts] tw]|]; simpl; [|reflexivity].
        unfold push.
        destruct ((len (users_batch st ++ [ut]) >=? batch_size)
                  || (len (tweets_batch st ++ [tw]) >=? batch_size)).
        -- rewrite !bind_assoc. simpl.
           rewrite (content_bind (flush (store st) (users_batch st ++ [ut])
                                    (geo_batch st ++ gts) (tweets_batch st ++ [tw]))).
           destruct (gather (tuples VNone) rest total (tweets_processed st + 1)
                       (errors_encountered st)) as [[[[[ub gb] tb] p] e]|] eqn:G;
             simpl.
           ++ replace (users_batch st ++ ut :: ub)%list
                with ((users_batch st ++ [ut]) ++ ub)%list
                by now rewrite <- app_assoc.
              replace (tweets_batch st ++ tw :: tb)%list
                with ((tweets_batch st ++ [tw]) ++ tb)%list
                by now rewrite <- app_assoc.
              replace (geo_batch st ++ gts ++ gb)%list
                with ((geo_batch st ++ gts) ++ gb)%list
                by now rewrite <- app_assoc.
              rewrite (content_bind (flush (store st) ((users_batch st ++ [ut]) ++ ub)
                                       ((geo_batch st ++ gts) ++ gb)
                                       ((tweets_batch st ++ [tw]) ++ tb))).
              rewrite (content_flush_app (store st) (users_batch st ++ [ut])
                         (geo_batch st ++ gts) (tweets_batch st ++ [tw]) ub gb tb).
              destruct (content (flush (store st) (users_batch st ++ [ut])
                                   (geo_batch st ++ gts) (tweets_batch st ++ [tw])))
                as [db'|]; [|reflexivity].
              rewrite IH. simpl. rewrite G. simpl. now rewrite content_bind.
           ++ destruct (content (flush (store st) (users_batch st ++ [ut])
                                   (geo_batch st ++ gts) (tweets_batch st ++ [tw])))
                as [db'|]; [|reflexivity].
              rewrite IH. simpl. now rewrite G.
        -- simpl. rewrite IH. simpl.
           destruct (gather (tuples VNone) rest total (tweets_processed st + 1)
                       (errors_encountered st)) as [[[[[ub gb] tb] p] e]|];
             [|reflexivity].
           simpl. now rewrite <- !app_assoc.
      * rewrite IH. reflexivity.
Qed.

(** [batch_insert_data_1D] leaves what gathering every tuple and flushing once
    leaves, whatever the batch size. *)
Lemma batch_insert_data_1D_gather db lines total batch_size :
  content (batch_insert_data_1D db lines total batch_size) =
  content
    (' (ub, gb, tb, p, e) <- gather (tuples VNone) lines total 0 0 ;;
     db' <- flush db ub gb tb ;;
     Ok (db', p, e)).
Proof.
  unfold batch_insert_data_1D. now rewrite loop_1D_gather.
Qed.

Lemma flush_nil db : flush db [] [] [] = Ok db.
Proof. reflexivity. Qed.

(** Rewrites with the equations of the case analysis until both sides are
    evaluated. *)
Ltac settle :=
  repeat (progress (simpl; rewrite ?flush_spec;
                    repeat match goal with
                      | H : _ = _ |- _ => rewrite H
                      end));
  try reflexivity.

Lemma body_1C_tuples tweet db :
  content (body_1C tweet db) =
  content (' (ut, gts, tw) <- tuples (VList []) tweet ;; flush db [ut] gts [tw]).
Proof.
  unfold body_1C, tuples, execute, insert_user, insert_geo, insert_tweet.
  destruct (subscript tweet "user") as [user|] eqn:E1; simpl; [|reflexivity].
  destruct (user_tuple user) as [ut|] eqn:E2; simpl; [|reflexivity].
  destruct (bind_params ut) as [ur|] eqn:E3;
    (destruct (get tweet "geo" VNone) as [geo|] eqn:E4; [|settle]);
    destruct (truthy geo) eqn:E5.
  1, 3: destruct (geo_tuple geo) as [[geo_id gt]|] eqn:E6; [|settle];
        destruct (bind_params gt) as [gr|] eqn:E7;
        destruct (tweet_tuple (VList []) tweet user geo_id) as [tw|] eqn:E8;
        try destruct (bind_params tw) as [tr|] eqn:E9; settle.
  all: destruct (tweet_tuple (VList []) tweet user VNone) as [tw|] eqn:E8;
       try destruct (bind_params tw) as [tr|] eqn:E9; settle.
Qed.

Lemma body_1B_tuples tweet db :
  content (body_1B tweet db) =
  content (' (ut, gts, tw) <- tuples_1B tweet ;; flush db [ut] gts [tw]).
Proof.
  unfold body_1B, tuples_1B, execute, insert_user, insert_geo, insert_tweet.
  destruct (get tweet "user" (VDict [])) as [user|] eqn:E1; simpl; [|reflexivity].
  destruct (user_tuple_1B user) as [ut|] eqn:E2; simpl; [|reflexivity].
  destruct (bind_params ut) as [ur|] eqn:E3;
    (destruct (get tweet "geo" VNone) as [geo|] eqn:E4; [|settle]);
    (destruct (geo_test_1B geo) as [[|]|] eqn:E5; [| |settle]).
  1, 3: destruct (geo_tuple geo) as [[geo_id gt]|] eqn:E6; [|settle];
        destruct (bind_params gt) as [gr|] eqn:E7;
        destruct (tweet_tuple_1B tweet user geo_id) as [tw|] eqn:E8;
        try destruct (bind_params tw) as [tr|] eqn:E9; settle.
  all: destruct (tweet_tuple_1B tweet user VNone) as [tw|] eqn:E8;
       try destruct (bind_params tw) as [tr|] eqn:E9; settle.
Qed.

Lemma loop_1C_gather lines total : forall db p e,
  content (loop_1C lines total db p e) =
  content
    (' (ub, gb, tb, p', e') <- gather (tuples (VList [])) lines total p e ;;
     db' <- flush db ub gb tb ;;
     Ok (db', p', e')).
Proof.
  induction lines as [|l rest IH]; intros db p e; simpl; [reflexivity|].
  destruct (p >=? total); [reflexivity|].
  destruct (json_loads l) as [tweet|]; [|apply IH].
  rewrite content_bind, body_1C_tuples.
  destruct (tuples (VList []) tweet) as [[[ut gts] tw]|]; simpl; [|reflexivity].
  destruct (gather (tuples (VList [])) rest total (p + 1) e)
    as [[[[[ub gb] tb] p'] e']|] eqn:G; simpl.
  - rewrite content_bind.
    change (flush db (ut :: ub) (gts ++ gb) (tw :: tb))
      with (flush db ([ut] ++ ub) (gts ++ gb) ([tw] ++ tb)).
    rewrite (content_flush_app db [ut] gts [tw] ub gb tb).
    destruct (content (flush db [ut] gts [tw])) as [db'|]; [|reflexivity].
    rewrite IH, G. simpl. now rewrite content_bind.
  - destruct (content (flush db [ut] gts [tw])) as [db'|]; [|reflexivity].
    now rewrite IH, G.
Qed.

Lemma loop_1B_gather lines total e : forall db p,
  content (loop_1B lines total db p) =
  content
    (' (ub, gb, tb, p', e') <- gather tuples_1B lines total p e ;;
     db' <- flush db ub gb tb ;;
     Ok (db', p')).
Proof.
  revert e.
  induction lines as [|l rest IH]; intros e db p; simpl; [reflexivity|].
  destruct (p >=? total); [reflexivity|].
  destruct l as [| |tweet]; simpl; try apply IH.
  rewrite content_bind, body_1B_tuples.
  destruct (tuples_1B tweet) as [[[ut gts] tw]|]; simpl; [|reflexivity].
  destruct (gather tuples_1B rest total (p + 1) e)
    as [[[[[ub gb] tb] p'] e']|] eqn:G; simpl.
  - rewrite content_bind.
    change (flush db (ut :: ub) (gts ++ gb) (tw :: tb))
      with (flush db ([ut] ++ ub) (gts ++ gb) ([tw] ++ tb)).
    rewrite (content_flush_app db [ut] gts [tw] ub gb tb).
    destruct (content (flush db [ut] gts [tw])) as [db'|]; [|reflexivity].
    rewrite (IH e), G. simpl. now rewrite content_bind.
  - destruct (content (flush db [ut] gts [tw])) as [db'|]; [|reflexivity].
    now rewrite (IH e), G.
Qed.

(** * Single functions and concrete runs *)


Lemma last_default {A : Type} (l : list A) (d d' : A) :
  l <> [] -> last l d = last l d'.
Proof.
  induction l as [|a l IH]; intros H; [contradiction|].
  destruct l as [|b l]; [reflexivity|].
  change (last (b :: l) d = last (b :: l) d'). apply IH. discriminate.
Qed.

Lemma timed_loop_spec ks : forall count n,
  timed_loop ks count n = (last ks count, (n + List.length ks)%nat).
Proof.
  induction ks as [|k ks IH]; intros count n.
  - simpl. now rewrite Nat.add_0_r.
  - change (timed_loop (k :: ks) count n) with (timed_loop ks k (S n)).
    rewrite IH. f_equal; [|simpl; lia].
    destruct ks as [|a l]; [reflexivity|].
    change (last (k :: a :: l) count) with (last (a :: l) count).
    apply last_default. discriminate.
Qed.

Lemma measure_2B_spec counts pending : forall results,
  let final := last counts 0 in
  final <> 0 ->
  results = [] \/ results = [(final, List.length counts)] ->
  measure_2B pending counts results =
  Ok (match pending with
      | [] => results
      | _ => [(final, List.length counts)]
      end).
Proof.
  induction pending as [|k pending IH]; intros results final Hf Hr; simpl.
  - reflexivity.
  - rewrite timed_loop_spec. simpl.
    destruct counts as [|c counts].
    + simpl in final. now elim Hf.
    + replace (last (c :: counts) k) with final
        by (unfold final; apply last_default; discriminate).
      assert (Hd : dict_set final (List.length (c :: counts)) results =
                   [(final, List.length (c :: counts))]).
      { destruct Hr as [-> | ->]; simpl; [reflexivity|].
        now rewrite Z.eqb_refl. }
      rewrite Hd. destruct (final =? 0) eqn:E; [apply Z.eqb_eq in E; contradiction|].
      rewrite (IH [(final, List.length (c :: counts))]); auto.
      now destruct pending.
Qed.

(** C8 (what the code does).  Every timed region runs the query once per
    element of [iteration_counts], not [count] times, and the returned
    mapping has a single entry, keyed by the last iteration count. *)
Theorem execute_query_iterations_2B_runs (k : Z) (ks : list Z) :
  last (k :: ks) 0 <> 0 ->
  execute_query_iterations_2B (k :: ks) =
  Ok [(last (k :: ks) 0, List.length (k :: ks))].
Proof.
  intros H. unfold execute_query_iterations_2B.
  rewrite measure_2B_spec; auto.
Qed.

Lemma execute_query_iterations_2B_runs_at_5_20 :
  execute_query_iterations_2B [5; 20] = Ok [(20, 2%nat)].
Proof.
  apply (execute_query_iterations_2B_runs 5 [20]). simpl. lia.
Defined.

Lemma user_tuple_fields user ut :
  user_tuple user = Ok ut \/ user_tuple_1B user = Ok ut ->
  ut = map (fun k => null_checker (field user k)) user_columns.
Proof.
  unfold user_tuple, user_tuple_1B, subscript, get, field, field_or, user_columns.
  destruct user as [| | | | | |items]; try (intros [H|H]; discriminate).
  simpl.
  destruct (lookup "id_str" items), (lookup "name" items),
    (lookup "screen_name" items), (lookup "description" items),
    (lookup "friends_count" items); simpl;
    intros [H|H]; inversion H; reflexivity.
Qed.

Lemma tweet_tuple_fields default tweet user geo_id tw :
  tweet_tuple default tweet user geo_id = Ok tw \/
  (default = VNone /\ tweet_tuple_1B tweet user geo_id = Ok tw) ->
  firstn 8 tw = map (fun k => null_checker (field tweet k)) tweet_columns /\
  nth 8 tw VNone = VStr (json_dumps (field_or default tweet "contributors")) /\
  nth 9 tw VNone = field user "id_str" /\
  nth 10 tw VNone = geo_id.
Proof.
  unfold tweet_tuple, tweet_tuple_1B, subscript, get, field, field_or, tweet_columns.
  destruct tweet as [| | | | | |items]; try (intros [H|[_ H]]; discriminate).
  simpl.
  destruct (lookup "created_at" items), (lookup "id_str" items),
    (lookup "text" items), (lookup "source" items),
    (lookup "in_reply_to_user_id_str" items),
    (lookup "in_reply_to_screen_name" items),
    (lookup "in_reply_to_status_id_str" items),
    (lookup "retweet_count" items), (lookup "contributors" items); simpl;
    try (intros [H|[_ H]]; discriminate);
    (destruct user as [| | | | | |uitems]; simpl;
     try (intros [H|[_ H]]; discriminate);
     destruct (lookup "id_str" uitems); simpl;
     intros [H|[-> H]]; inversion H; repeat split; reflexivity).
Qed.

Lemma geo_tuple_fields geo geo_id gt :
  geo_tuple geo = Ok (geo_id, gt) ->
  exists longitude latitude,
    unpack2 (field geo "coordinates") = Ok (longitude, latitude) /\
    geo_id = VStr (format longitude ++ "_" ++ format latitude) /\
    gt = [geo_id; VStr "Point"; longitude; latitude].
Proof.
  unfold geo_tuple, subscript, field, field_or.
  destruct geo as [| | | | | |items]; try discriminate.
  destruct (lookup "coordinates" items) as [coords|]; simpl; [|discriminate].
  destruct (unpack2 coords) as [[longitude latitude]|] eqn:U; simpl; [|discriminate].
  intros H. inversion H. now exists longitude, latitude.
Qed.

(** C7 (amended).  In the three strategies the five USER parameters and the
    first eight TWEET parameters, the primary keys [id] and [id_str] among
    them, are the source fields passed through [null_checker]; the
    contributors text, the TWEET [user_id] and [geo_id], and the four GEO
    parameters are not passed through it. *)
Theorem null_checker_coverage :
  (forall user ut,
     user_tuple user = Ok ut \/ user_tuple_1B user = Ok ut ->
     ut = map (fun k => null_checker (field user k)) user_columns) /\
  (forall default tweet user geo_id tw,
     tweet_tuple default tweet user geo_id = Ok tw \/
     (default = VNone /\ tweet_tuple_1B tweet user geo_id = Ok tw) ->
     firstn 8 tw = map (fun k => null_checker (field tweet k)) tweet_columns /\
     nth 8 tw VNone = VStr (json_dumps (field_or default tweet "contributors")) /\
     nth 9 tw VNone = field user "id_str" /\
     nth 10 tw VNone = geo_id) /\
  (forall geo geo_id gt,
     geo_tuple geo = Ok (geo_id, gt) ->
     exists longitude latitude,
       unpack2 (field geo "coordinates") = Ok (longitude, latitude) /\
       geo_id = VStr (format longitude ++ "_" ++ format latitude) /\
       gt = [geo_id; VStr "Point"; longitude; latitude]).
Proof.
  split; [exact user_tuple_fields|].
  split; [exact tweet_tuple_fields | exact geo_tuple_fields].
Qed.

Lemma geo_test_1B_true geo :
  geo_test_1B geo = Ok true ->
  exists items coords elems,
    geo = VDict items /\ lookup "coordinates" items = Some coords /\
    iterate coords = Ok elems /\ forallb is_number elems = true.
Proof.
  unfold geo_test_1B. destruct (truthy geo); [|discriminate].
  destruct geo as [| | | |g|l|items]; try discriminate.
  - unfold contains. cbn [bind]. destruct (is_substring "coordinates" g); discriminate.
  - unfold contains. cbn [bind].
    destruct (existsb (fun x => eq_str x "coordinates") l); discriminate.
  - unfold contains, subscript. cbn [bind].
    destruct (lookup "coordinates" items) as [coords|] eqn:L; [|discriminate].
    cbn [bind]. destruct (iterate coords) as [elems|] eqn:I; [|discriminate].
    cbn [bind]. intros H. injection H as F.
    exists items, coords, elems. repeat split; assumption || reflexivity.
Qed.

(** C4 (what the code does).  The network strategy builds a GEO tuple only
    for a "geo" object whose coordinates are all numbers.  The two file
    strategies do not test the coordinates: on the pair ["a", "b"] they store
    the GEO row a_b and make the TWEET row refer to it, where the network
    strategy stores no GEO row. *)
Theorem non_numeric_coordinates_are_stored :
  let r := post (VStr "1") (actor (VStr "42")) (point (VStr "a") (VStr "b")) in
  (forall geo,
     geo_test_1B geo = Ok true ->
     exists items coords elems,
       geo = VDict items /\ lookup "coordinates" items = Some coords /\
       iterate coords = Ok elems /\ forallb is_number elems = true) /\
  (exists db,
     populate_tables_txt_1C create_tables [Json r] 1 = Ok (db, 1, 0) /\
     GEO db = [[SText "a_b"; SText "Point"; SText "a"; SText "b"]] /\
     map (fun r => nth 10 r SNull) (TWEET db) = [SText "a_b"]) /\
  (exists db,
     batch_insert_data_1D create_tables [Json r] 1 1 = Ok (db, 1, 0) /\
     GEO db = [[SText "a_b"; SText "Point"; SText "a"; SText "b"]] /\
     map (fun r => nth 10 r SNull) (TWEET db) = [SText "a_b"]) /\
  (exists db,
     populate_tables_web_1B create_tables [Json r] 1 = Ok (db, 1) /\
     GEO db = [] /\
     map (fun r => nth 10 r SNull) (TWEET db) = [SNull]).
Proof.
  split; [exact geo_test_1B_true|].
  repeat split; eexists; (split; [vm_compute; reflexivity|]);
    split; reflexivity.
Qed.

Lemma gather_ext f g lines total : forall p e,
  (forall v, In (Json v) lines -> f v = g v) ->
  gather f lines total p e = gather g lines total p e.
Proof.
  induction lines as [|l rest IH]; intros p e H; simpl; [reflexivity|].
  destruct (p >=? total); [reflexivity|].
  destruct l as [| |v]; simpl; try (apply IH; intros; apply H; now right).
  rewrite (H v) by now left.
  destruct (g v) as [[[ut gts] tw]|]; simpl; [|reflexivity].
  rewrite IH; [reflexivity|]. intros; apply H; now right.
Qed.

Lemma tweet_tuple_default d d' tweet user geo_id :
  has_contributors tweet ->
  tweet_tuple d tweet user geo_id = tweet_tuple d' tweet user geo_id.
Proof.
  unfold has_contributors, tweet_tuple, subscript, get.
  destruct tweet as [| | | | | |items]; try reflexivity.
  intros H. destruct (lookup "contributors" items); [reflexivity|contradiction].
Qed.

Lemma tuples_default d d' tweet :
  has_contributors tweet -> tuples d tweet = tuples d' tweet.
Proof.
  intros H. unfold tuples.
  destruct (subscript tweet "user") as [user|]; simpl; [|reflexivity].
  destruct (user_tuple user) as [ut|]; simpl; [|reflexivity].
  destruct (get tweet "geo" VNone) as [geo|]; simpl; [|reflexivity].
  destruct (truthy geo).
  - destruct (geo_tuple geo) as [[geo_id gt]|]; simpl; [|reflexivity].
    now rewrite (tweet_tuple_default d d').
  - simpl. now rewrite (tweet_tuple_default d d').
Qed.

(** C1 (what the code does).  The batched strategy leaves the same store and
    counters for every batch size, and the same as the single-row file
    strategy when every decoded record carries a "contributors" key; on a
    record without that key the two strategies store different TWEET rows. *)
Theorem batch_invariance_and_contributors_default :
  (forall db lines total b b',
     content (batch_insert_data_1D db lines total b) =
     content (batch_insert_data_1D db lines total b')) /\
  (forall db lines total b,
     (forall v, In (Json v) lines -> has_contributors v) ->
     content (batch_insert_data_1D db lines total b) =
     content (populate_tables_txt_1C db lines total)) /\
  content (batch_insert_data_1D create_tables [Json (without "contributors" post_1)] 1 1)
  <> content (populate_tables_txt_1C create_tables [Json (without "contributors" post_1)] 1).
Proof.
  split; [|split].
  - intros. now rewrite !batch_insert_data_1D_gather.
  - intros db lines total b H.
    rewrite batch_insert_data_1D_gather. unfold populate_tables_txt_1C.
    rewrite loop_1C_gather.
    rewrite (gather_ext (tuples VNone) (tuples (VList []))); [reflexivity|].
    intros v Hv. apply tuples_default. now apply H.
  - vm_compute. discriminate.
Qed.

(** * Uncaught exceptions *)

Lemma content_none {A : Type} (r : result A) :
  content r = None -> exists ex, r = Raise ex.
Proof. destruct r; [discriminate|]. now exists e. Qed.

Lemma loop_1C_done rest total db p e :
  (p >=? total) = true -> loop_1C rest total db p e = Ok (db, p, e).
Proof. intros H. destruct rest; simpl; [reflexivity|now rewrite H]. Qed.

Lemma loop_1C_app pre rest total : forall db p e,
  loop_1C (pre ++ rest) total db p e =
  (' (db1, p1, e1) <- loop_1C pre total db p e ;; loop_1C rest total db1 p1 e1).
Proof.
  induction pre as [|l pre IH]; intros db p e; simpl; [reflexivity|].
  destruct (p >=? total) eqn:E; simpl; [now rewrite loop_1C_done|].
  destruct (json_loads l) as [tweet|]; [|apply IH].
  rewrite bind_assoc. destruct (body_1C tweet db); simpl; [apply IH|reflexivity].
Qed.

Lemma loop_1D_done rest total b st :
  (tweets_processed st >=? total) = true -> loop_1D rest total b st = Ok st.
Proof. intros H. destruct rest; simpl; [reflexivity|now rewrite H]. Qed.

Lemma loop_1D_app pre rest total b : forall st,
  loop_1D (pre ++ rest) total b st =
  (st1 <- loop_1D pre total b st ;; loop_1D rest total b st1).
Proof.
  induction pre as [|l pre IH]; intros st; simpl; [reflexivity|].
  destruct (tweets_processed st >=? total) eqn:E; simpl; [now rewrite loop_1D_done|].
  destruct (json_loads l) as [tweet|]; [|apply IH].
  rewrite bind_assoc. destruct (body_1D b tweet st); simpl; [apply IH|reflexivity].
Qed.

Lemma loop_1B_done rest total db p :
  (p >=? total) = true -> loop_1B rest total db p = Ok (db, p).
Proof. intros H. destruct rest; simpl; [reflexivity|now rewrite H]. Qed.

Lemma loop_1B_app pre rest total : forall db p,
  loop_1B (pre ++ rest) total db p =
  (' (db1, p1) <- loop_1B pre total db p ;; loop_1B rest total db1 p1).
Proof.
  induction pre as [|l pre IH]; intros db p; simpl; [reflexivity|].
  destruct (p >=? total) eqn:E; simpl; [now rewrite loop_1B_done|].
  destruct (strip l); [|apply IH].
  destruct (json_loads l) as [tweet|]; [|apply IH].
  rewrite bind_assoc. destruct (body_1B tweet db); simpl; [apply IH|reflexivity].
Qed.

Lemma final_flush_processed st db p e :
  final_flush st = Ok (db, p, e) -> tweets_processed st = p.
Proof.
  unfold final_flush.
  destruct (negb (is_empty (users_batch st)) || negb (is_empty (geo_batch st))
            || negb (is_empty (tweets_batch st))).
  - destruct (flush (store st) (users_batch st) (geo_batch st) (tweets_batch st));
      simpl; intros H; now inversion H.
  - intros H; now inversion H.
Qed.

(** A record whose tuples cannot be built aborts [populate_tables_txt_1C]
    when the loop reaches it. *)
Lemma tuples_raise_aborts_1C db pre tweet rest total db1 p e :
  (exists ex, tuples (VList []) tweet = Raise ex) ->
  populate_tables_txt_1C db pre total = Ok (db1, p, e) ->
  p < total ->
  exists ex, populate_tables_txt_1C db (pre ++ Json tweet :: rest) total = Raise ex.
Proof.
  unfold populate_tables_txt_1C. intros [ex Hex] Hpre Hp.
  rewrite loop_1C_app, Hpre. simpl.
  destruct (p >=? total) eqn:E; [apply Z.geb_le in E; lia|].
  destruct (content_none (body_1C tweet db1)) as [ex' Hb].
  { now rewrite body_1C_tuples, Hex. }
  rewrite Hb. now exists ex'.
Qed.

(** The same for [batch_insert_data_1D], whatever the batch size. *)
Lemma tuples_raise_aborts_1D db pre tweet rest total b db1 p e :
  (exists ex, tuples VNone tweet = Raise ex) ->
  batch_insert_data_1D db pre total b = Ok (db1, p, e) ->
  p < total ->
  exists ex, batch_insert_data_1D db (pre ++ Json tweet :: rest) total b = Raise ex.
Proof.
  unfold batch_insert_data_1D. intros [ex Hex] Hpre Hp.
  destruct (loop_1D pre total b (mkst db [] [] [] 0 0)) as [st1|] eqn:L;
    [|discriminate].
  simpl in Hpre. apply final_flush_processed in Hpre.
  rewrite loop_1D_app, L. simpl.
  destruct (tweets_processed st1 >=? total) eqn:E; [apply Z.geb_le in E; lia|].
  rewrite body_1D_push, Hex. simpl. now exists ex.
Qed.

Lemma tweet_tuple_raises d items user geo_id k :
  In k required_tweet_keys ->
  lookup k items = None ->
  exists ex, tweet_tuple d (VDict items) user geo_id = Raise ex.
Proof.
  unfold required_tweet_keys, tweet_tuple, subscript, get.
  intros Hk Hl. simpl in Hk.
  destruct Hk as [<-|[<-|[<-|[<-|[<-|[]]]]]]; rewrite Hl;
    repeat match goal with
      | |- context [lookup ?key items] => destruct (lookup key items); simpl
      end;
    eexists; reflexivity.
Qed.

Lemma user_tuple_raises uitems k :
  In k user_columns ->
  lookup k uitems = None ->
  exists ex, user_tuple (VDict uitems) = Raise ex.
Proof.
  unfold user_columns, user_tuple, subscript.
  intros Hk Hl. simpl in Hk.
  destruct Hk as [<-|[<-|[<-|[<-|[<-|[]]]]]]; rewrite Hl;
    repeat match goal with
      | |- context [lookup ?key uitems] => destruct (lookup key uitems); simpl
      end;
    eexists; reflexivity.
Qed.

Lemma unpack2_raises coords :
  (forall a b, iterate coords <> Ok [a; b]) ->
  exists ex, unpack2 coords = Raise ex.
Proof.
  intros H. unfold unpack2.
  destruct (iterate coords) as [elems|ex] eqn:E; simpl; [|now exists ex].
  destruct elems as [|a [|b [|c elems]]]; try (eexists; reflexivity).
  now elim (H a b).
Qed.

Lemma malformed_record_raises d tweet :
  malformed_record tweet -> exists ex, tuples d tweet = Raise ex.
Proof.
  intros H. unfold tuples.
  destruct H as [items Hu | items uitems k Hu Hk Hl | items k Hk Hl
                | items gitems Hg Hne Hc | items gitems coords Hg Hc Hp].
  - unfold subscript. rewrite Hu. eexists; reflexivity.
  - unfold subscript at 1. rewrite Hu. cbn [bind].
    destruct (user_tuple_raises uitems k Hk Hl) as [ex ->]. now exists ex.
  - destruct (subscript (VDict items) "user") as [user|ex]; cbn [bind];
      [|now exists ex].
    destruct (user_tuple user) as [ut|ex]; cbn [bind]; [|now exists ex].
    destruct (get (VDict items) "geo" VNone) as [geo|ex]; cbn [bind];
      [|now exists ex].
    destruct (truthy geo).
    + destruct (geo_tuple geo) as [[geo_id gt]|ex]; cbn [bind]; [|now exists ex].
      destruct (tweet_tuple_raises d items user geo_id k Hk Hl) as [ex ->].
      now exists ex.
    + cbn [bind].
      destruct (tweet_tuple_raises d items user VNone k Hk Hl) as [ex ->].
      now exists ex.
  - destruct (subscript (VDict items) "user") as [user|ex]; cbn [bind];
      [|now exists ex].
    destruct (user_tuple user) as [ut|ex]; cbn [bind]; [|now exists ex].
    unfold get. rewrite Hg. cbn [bind].
    destruct gitems; [contradiction|]. cbn [truthy].
    unfold geo_tuple, subscript. rewrite Hc. cbn [bind]. eexists; reflexivity.
  - destruct (subscript (VDict items) "user") as [user|ex]; cbn [bind];
      [|now exists ex].
    destruct (user_tuple user) as [ut|ex]; cbn [bind]; [|now exists ex].
    unfold get. rewrite Hg. cbn [bind].
    destruct gitems; [discriminate|]. cbn [truthy].
    unfold geo_tuple, subscript. rewrite Hc. cbn [bind].
    destruct (unpack2_raises coords Hp) as [ex ->]. now exists ex.
Qed.

(** C10 (amended).  In the two file strategies, when the loop reaches a
    decoded record that lacks the "user" object, a key read by subscript, the
    "coordinates" key of a non-empty "geo" object, or a coordinates value
    that unpacks into two elements, the invocation ends with an exception:
    no store and no counters are returned. *)
Theorem malformed_record_aborts db pre tweet rest total :
  malformed_record tweet ->
  (forall db1 p e,
     populate_tables_txt_1C db pre total = Ok (db1, p, e) ->
     p < total ->
     exists ex, populate_tables_txt_1C db (pre ++ Json tweet :: rest) total = Raise ex) /\
  (forall b db1 p e,
     batch_insert_data_1D db pre total b = Ok (db1, p, e) ->
     p < total ->
     exists ex, batch_insert_data_1D db (pre ++ Json tweet :: rest) total b = Raise ex).
Proof.
  intros H. split; intros.
  - eapply tuples_raise_aborts_1C; eauto. now apply malformed_record_raises.
  - eapply tuples_raise_aborts_1D; eauto. now apply malformed_record_raises.
Qed.

(** * Records without a post identifier *)

Lemma bind_params_nth params : forall r i,
  bind_params params = Ok r ->
  to_sql (nth i params VNone) = Ok (nth i r SNull).
Proof.
  induction params as [|x params IH]; intros r i; simpl.
  - intros H; inversion H. now destruct i.
  - destruct (to_sql x) as [y|] eqn:E; simpl; [|discriminate].
    destruct (bind_params params) as [ys|]; simpl; [|discriminate].
    intros H; inversion H; subst.
    destruct i; simpl; [exact E|now apply IH].
Qed.

Lemma bind_batch_single x :
  content (bind_batch [x]) =
  match content (bind_params x) with
  | Some r => Some [r]
  | None => None
  end.
Proof. simpl. now destruct (bind_params x). Qed.

Lemma tuples_1B_inv tweet ut gts tw :
  tuples_1B tweet = Ok (ut, gts, tw) ->
  exists user geo_id,
    get tweet "user" (VDict []) = Ok user /\
    user_tuple_1B user = Ok ut /\
    tweet_tuple_1B tweet user geo_id = Ok tw /\
    (gts = [] /\ geo_id = VNone \/
     exists geo gt, geo_tuple geo = Ok (geo_id, gt) /\ gts = [gt]).
Proof.
  unfold tuples_1B.
  destruct (get tweet "user" (VDict [])) as [user|] eqn:U; cbn [bind]; [|discriminate].
  destruct (user_tuple_1B user) as [ut'|] eqn:UT; cbn [bind]; [|discriminate].
  destruct (get tweet "geo" VNone) as [geo|]; cbn [bind]; [|discriminate].
  destruct (geo_test_1B geo) as [[|]|]; cbn [bind]; [| |discriminate].
  - destruct (geo_tuple geo) as [[geo_id gt]|] eqn:G; cbn [bind]; [|discriminate].
    destruct (tweet_tuple_1B tweet user geo_id) as [tw'|] eqn:T; cbn [bind];
      [|discriminate].
    intros H; inversion H; subst. exists user, geo_id.
    repeat (split; [assumption || reflexivity|]). right. now exists geo, gt.
  - destruct (tweet_tuple_1B tweet user VNone) as [tw'|] eqn:T; cbn [bind];
      [|discriminate].
    intros H; inversion H; subst. exists user, VNone.
    repeat (split; [assumption || reflexivity|]). now left.
Qed.

Lemma tuples_inv d tweet ut gts tw :
  tuples d tweet = Ok (ut, gts, tw) ->
  exists user geo_id,
    subscript tweet "user" = Ok user /\
    user_tuple user = Ok ut /\
    tweet_tuple d tweet user geo_id = Ok tw /\
    (gts = [] /\ geo_id = VNone \/
     exists geo gt, geo_tuple geo = Ok (geo_id, gt) /\ gts = [gt]).
Proof.
  unfold tuples.
  destruct (subscript tweet "user") as [user|] eqn:U; cbn [bind]; [|discriminate].
  destruct (user_tuple user) as [ut'|] eqn:UT; cbn [bind]; [|discriminate].
  destruct (get tweet "geo" VNone) as [geo|]; cbn [bind]; [|discriminate].
  destruct (truthy geo); cbn [bind].
  - destruct (geo_tuple geo) as [[geo_id gt]|] eqn:G; cbn [bind]; [|discriminate].
    destruct (tweet_tuple d tweet user geo_id) as [tw'|] eqn:T; cbn [bind];
      [|discriminate].
    intros H; inversion H; subst. exists user, geo_id.
    repeat (split; [assumption || reflexivity|]). right. now exists geo, gt.
  - destruct (tweet_tuple d tweet user VNone) as [tw'|] eqn:T; cbn [bind];
      [|discriminate].
    intros H; inversion H; subst. exists user, VNone.
    repeat (split; [assumption || reflexivity|]). now left.
Qed.

(** What a completed [body_1B] has written. *)
Lemma body_1B_stored tweet db db' :
  body_1B tweet db = Ok db' ->
  exists ut gts tw ur gr tr,
    tuples_1B tweet = Ok (ut, gts, tw) /\
    bind_params ut = Ok ur /\ bind_batch gts = Ok gr /\ bind_params tw = Ok tr /\
    db' = store_rows db [ur] gr [tr].
Proof.
  intros H. assert (C : content (body_1B tweet db) = Some db') by now rewrite H.
  rewrite body_1B_tuples in C.
  destruct (tuples_1B tweet) as [[[ut gts] tw]|]; [|discriminate].
  cbn [bind] in C. rewrite content_flush, !bind_batch_single in C.
  destruct (bind_params ut) as [ur|] eqn:Bu; [|discriminate].
  destruct (bind_batch gts) as [gr|] eqn:Bg; [|discriminate].
  destruct (bind_params tw) as [tr|] eqn:Bt; [|discriminate].
  simpl in C. inversion C. now exists ut, gts, tw, ur, gr, tr.
Qed.

Lemma insert_null_key pk r t :
  key pk r = SNull -> insert_or_ignore pk r t = (t ++ [r])%list.
Proof. intros H. unfold insert_or_ignore, conflicts. now rewrite H. Qed.

(** C6 (amended).  No strategy skips a record that lacks "id_str".  The two
    file strategies end with an exception when the loop reaches it.  The
    network strategy, when the record is ingested at all, counts it and
    appends a TWEET row whose primary key is NULL. *)
Theorem record_without_post_id db pre tweet rest total :
  lacks "id_str" tweet ->
  (forall db1 p e,
     populate_tables_txt_1C db pre total = Ok (db1, p, e) ->
     p < total ->
     exists ex, populate_tables_txt_1C db (pre ++ Json tweet :: rest) total = Raise ex) /\
  (forall b db1 p e,
     batch_insert_data_1D db pre total b = Ok (db1, p, e) ->
     p < total ->
     exists ex, batch_insert_data_1D db (pre ++ Json tweet :: rest) total b = Raise ex) /\
  (forall db1 p db2,
     populate_tables_web_1B db pre total = Ok (db1, p) ->
     p < total ->
     body_1B tweet db1 = Ok db2 ->
     populate_tables_web_1B db (pre ++ [Json tweet]) total = Ok (db2, p + 1) /\
     exists row,
       TWEET db2 = (TWEET db1 ++ [row])%list /\ key (primary_key Tweet) row = SNull).
Proof.
  intros H. destruct tweet as [| | | | | |items]; try contradiction.
  simpl in H.
  assert (M : malformed_record (VDict items)).
  { apply (no_tweet_key items "id_str"); [right; now left | exact H]. }
  split; [|split].
  - intros. eapply tuples_raise_aborts_1C; eauto. now apply malformed_record_raises.
  - intros. eapply tuples_raise_aborts_1D; eauto. now apply malformed_record_raises.
  - intros db1 p db2 Hpre Hp Hb. split.
    + unfold populate_tables_web_1B in *. rewrite loop_1B_app, Hpre. simpl.
      destruct (p >=? total) eqn:E; [apply Z.geb_le in E; lia|].
      now rewrite Hb.
    + apply body_1B_stored in Hb.
      destruct Hb as (ut & gts & tw & ur & gr & tr & T & Bu & Bg & Bt & ->).
      exists (stored Tweet tr). simpl. apply tuples_1B_inv in T.
      destruct T as (user & geo_id & _ & _ & T & _).
      assert (K : key 1 tr = SNull).
      { destruct (tweet_tuple_fields VNone (VDict items) user geo_id tw) as (F & _);
          [right; now split|].
        pose proof (bind_params_nth tw tr 1 Bt) as N.
        pose proof (nth_firstn 8 tw 1 VNone) as Q.
        rewrite F in Q. simpl in Q. unfold field, field_or in Q.
        rewrite H in Q. simpl in Q. rewrite <- Q in N.
        simpl in N. unfold key. now inversion N. }
      assert (K' : key 1 (stored Tweet tr) = SNull)
        by (apply <- (key_stored_null Tweet); exact K).
      split; [|exact K']. now apply insert_null_key.
Qed.

(** * Keys and repeated inserts *)

Open Scope list_scope.

Lemma sqlval_eqb_eq a b : sqlval_eqb a b = true <-> a = b.
Proof.
  destruct a, b; simpl; split; intros H; try discriminate; try reflexivity.
  - apply Z.eqb_eq in H. now subst.
  - inversion H. apply Z.eqb_refl.
  - apply String.eqb_eq in H. now subst.
  - inversion H. apply String.eqb_refl.
  - apply String.eqb_eq in H. now subst.
  - inversion H. apply String.eqb_refl.
Qed.

Lemma sqlval_eqb_refl a : sqlval_eqb a a = true.
Proof. now apply sqlval_eqb_eq. Qed.

Lemma conflicts_has_key pk r t :
  key pk r <> SNull -> conflicts pk r t = has_key pk (key pk r) t.
Proof. unfold conflicts, has_key. now destruct (key pk r). Qed.

Lemma has_key_app pk k t t' :
  has_key pk k (t ++ t') = has_key pk k t || has_key pk k t'.
Proof. apply existsb_app. Qed.

Lemma key_count_app pk k t t' :
  key_count pk k (t ++ t') = (key_count pk k t + key_count pk k t')%nat.
Proof. unfold key_count. now rewrite filter_app, length_app. Qed.

Lemma has_key_count pk k t :
  has_key pk k t = false <-> key_count pk k t = 0%nat.
Proof.
  unfold has_key, key_count. induction t as [|r t IH]; simpl; [tauto|].
  destruct (sqlval_eqb (key pk r) k); simpl; [split; discriminate|exact IH].
Qed.

Lemma has_key_insert pk r t :
  key pk r <> SNull -> has_key pk (key pk r) (insert_or_ignore pk r t) = true.
Proof.
  intros H. unfold insert_or_ignore. rewrite conflicts_has_key by assumption.
  destruct (has_key pk (key pk r) t) eqn:E; [exact E|].
  rewrite has_key_app. simpl. now rewrite sqlval_eqb_refl, orb_true_r.
Qed.

Lemma insert_present pk r t :
  key pk r <> SNull -> has_key pk (key pk r) t = true -> insert_or_ignore pk r t = t.
Proof.
  intros H E. unfold insert_or_ignore. now rewrite conflicts_has_key, E.
Qed.

Lemma insert_fresh pk r t :
  has_key pk (key pk r) t = false -> insert_or_ignore pk r t = (t ++ [r])%list.
Proof.
  intros E. unfold insert_or_ignore, conflicts. unfold has_key in E.
  destruct (key pk r); now rewrite ?E.
Qed.

Lemma insert_twice pk r t :
  key pk r <> SNull ->
  insert_or_ignore pk r (insert_or_ignore pk r t) = insert_or_ignore pk r t.
Proof. intros H. apply insert_present; [assumption|now apply has_key_insert]. Qed.

Lemma key_count_insert pk r t :
  key pk r <> SNull ->
  unique_keys pk t ->
  key_count pk (key pk r) (insert_or_ignore pk r t) = 1%nat.
Proof.
  intros H U. destruct (has_key pk (key pk r) t) eqn:E.
  - rewrite insert_present by assumption.
    specialize (U _ H).
    destruct (key_count pk (key pk r) t) as [|[|n]] eqn:C; try lia.
    apply has_key_count in C. congruence.
  - rewrite insert_fresh by assumption. rewrite key_count_app.
    apply has_key_count in E. rewrite E. unfold key_count. simpl.
    now rewrite sqlval_eqb_refl.
Qed.

Lemma unique_keys_insert pk r t :
  unique_keys pk t -> unique_keys pk (insert_or_ignore pk r t).
Proof.
  intros U k Hk. unfold insert_or_ignore.
  destruct (conflicts pk r t) eqn:C; [now apply U|].
  rewrite key_count_app. unfold key_count at 2. simpl.
  destruct (sqlval_eqb (key pk r) k) eqn:E; simpl; [|specialize (U k Hk); lia].
  apply sqlval_eqb_eq in E. subst k.
  rewrite conflicts_has_key in C by assumption.
  apply has_key_count in C. rewrite C. lia.
Qed.

Lemma unique_keys_insert_rows pk rs : forall t,
  unique_keys pk t -> unique_keys pk (insert_rows pk rs t).
Proof.
  induction rs as [|r rs IH]; intros t U; simpl; [exact U|].
  apply IH. now apply unique_keys_insert.
Qed.

Lemma has_key_insert_mono pk k r t :
  has_key pk k t = true -> has_key pk k (insert_or_ignore pk r t) = true.
Proof.
  intros H. unfold insert_or_ignore. destruct (conflicts pk r t); [exact H|].
  now rewrite has_key_app, H.
Qed.

Lemma has_key_insert_rows_mono pk k rs : forall t,
  has_key pk k t = true -> has_key pk k (insert_rows pk rs t) = true.
Proof.
  induction rs as [|r rs IH]; intros t H; simpl; [exact H|].
  apply IH. now apply has_key_insert_mono.
Qed.

Lemma insert_rows_present pk rs t :
  Forall (fun r => key pk r <> SNull /\ has_key pk (key pk r) t = true) rs ->
  insert_rows pk rs t = t.
Proof.
  induction 1 as [|r rs [Hn Hk] _ IH]; simpl; [reflexivity|].
  now rewrite insert_present.
Qed.

Lemma insert_rows_all_present pk rs : forall t,
  Forall (fun r => key pk r <> SNull) rs ->
  Forall (fun r => key pk r <> SNull /\
                   has_key pk (key pk r) (insert_rows pk rs t) = true) rs.
Proof.
  induction rs as [|r rs IH]; intros t H; [constructor|].
  inversion H as [|? ? Hr Hrs]; subst. constructor.
  - split; [exact Hr|]. simpl. apply has_key_insert_rows_mono.
    now apply has_key_insert.
  - simpl. now apply IH.
Qed.

Lemma insert_rows_twice pk rs t :
  Forall (fun r => key pk r <> SNull) rs ->
  insert_rows pk rs (insert_rows pk rs t) = insert_rows pk rs t.
Proof.
  intros H. apply insert_rows_present. now apply insert_rows_all_present.
Qed.

Lemma content_some {A : Type} (r : result A) (a : A) :
  content r = Some a -> r = Ok a.
Proof. destruct r; simpl; intros H; now inversion H. Qed.

(** ** Every strategy, as gathering and one flush *)

Lemma run_gather s db lines total :
  content (run s db lines total) =
  content
    (' (ub, gb, tb, p, e) <- gather (tuples_of s) lines total 0 0 ;;
     db' <- flush db ub gb tb ;;
     Ok (db', p, counter s e)).
Proof.
  destruct s as [| |b]; unfold run, tuples_of, counter, file_based;
    rewrite content_bind.
  - unfold populate_tables_web_1B. rewrite (loop_1B_gather lines total 0).
    destruct (gather tuples_1B lines total 0 0) as [[[[[ub gb] tb] p] e]|];
      [|reflexivity].
    cbn [bind]. rewrite !content_bind. now destruct (content (flush db ub gb tb)).
  - unfold populate_tables_txt_1C. rewrite loop_1C_gather.
    destruct (gather (tuples (VList [])) lines total 0 0)
      as [[[[[ub gb] tb] p] e]|]; [|reflexivity].
    cbn [bind]. rewrite !content_bind. now destruct (content (flush db ub gb tb)).
  - rewrite batch_insert_data_1D_gather.
    destruct (gather (tuples VNone) lines total 0 0)
      as [[[[[ub gb] tb] p] e]|]; [|reflexivity].
    cbn [bind]. rewrite !content_bind. now destruct (content (flush db ub gb tb)).
Qed.

Lemma ingest_one s db r :
  ingest s db [Json r] 1 =
  match content (tuples_of s r) with
  | Some (ut, gts, tw) => content (flush db [ut] gts [tw])
  | None => None
  end.
Proof.
  unfold ingest. rewrite run_gather. simpl.
  destruct (tuples_of s r) as [[[ut gts] tw]|]; [|reflexivity].
  simpl. rewrite app_nil_r, content_bind.
  now destruct (content (flush db [ut] gts [tw])).
Qed.

Lemma ingest_two s db r :
  ingest s db [Json r; Json r] 2 =
  match content (tuples_of s r) with
  | Some (ut, gts, tw) => content (flush db ([ut] ++ [ut]) (gts ++ gts) ([tw] ++ [tw]))
  | None => None
  end.
Proof.
  unfold ingest. rewrite run_gather. simpl.
  destruct (tuples_of s r) as [[[ut gts] tw]|]; [|reflexivity].
  simpl. rewrite app_nil_r, content_bind.
  now destruct (content (flush db [ut; ut] (gts ++ gts) [tw; tw])).
Qed.

(** ** The keys of the tuples of a record *)

Lemma geo_test_truthy geo : geo_test_1B geo = Ok true -> truthy geo = true.
Proof. unfold geo_test_1B. now destruct (truthy geo). Qed.

Lemma tuples_geo d r ut gts tw :
  tuples d r = Ok (ut, gts, tw) ->
  exists geo,
    get r "geo" VNone = Ok geo /\
    if truthy geo
    then exists geo_id gt, geo_tuple geo = Ok (geo_id, gt) /\ gts = [gt]
    else gts = [].
Proof.
  unfold tuples.
  destruct (subscript r "user") as [user|]; cbn [bind]; [|discriminate].
  destruct (user_tuple user) as [ut'|]; cbn [bind]; [|discriminate].
  destruct (get r "geo" VNone) as [geo|]; cbn [bind]; [|discriminate].
  exists geo. split; [reflexivity|]. revert H.
  destruct (truthy geo); cbn [bind].
  - destruct (geo_tuple geo) as [[geo_id gt]|]; cbn [bind]; [|discriminate].
    destruct (tweet_tuple d r user geo_id); cbn [bind]; [|discriminate].
    intros H; inversion H. now exists geo_id, gt.
  - destruct (tweet_tuple d r user VNone); cbn [bind]; [|discriminate].
    intros H; now inversion H.
Qed.

Lemma tuples_1B_geo r ut gts tw :
  tuples_1B r = Ok (ut, gts, tw) ->
  exists geo test,
    get r "geo" VNone = Ok geo /\ geo_test_1B geo = Ok test /\
    if test
    then exists geo_id gt, geo_tuple geo = Ok (geo_id, gt) /\ gts = [gt]
    else gts = [].
Proof.
  unfold tuples_1B.
  destruct (get r "user" (VDict [])) as [user|]; cbn [bind]; [|discriminate].
  destruct (user_tuple_1B user) as [ut'|]; cbn [bind]; [|discriminate].
  destruct (get r "geo" VNone) as [geo|]; cbn [bind]; [|discriminate].
  destruct (geo_test_1B geo) as [test|] eqn:T; cbn [bind]; [|discriminate].
  exists geo, test. split; [reflexivity|]. split; [exact T|]. revert H.
  destruct test; cbn [bind].
  - destruct (geo_tuple geo) as [[geo_id gt]|]; cbn [bind]; [|discriminate].
    destruct (tweet_tuple_1B r user geo_id); cbn [bind]; [|discriminate].
    intros H; inversion H. now exists geo_id, gt.
  - destruct (tweet_tuple_1B r user VNone); cbn [bind]; [|discriminate].
    intros H; now inversion H.
Qed.

(** The GEO tuples of a record: none, or one whose first parameter is text. *)
Lemma tuples_of_geo s r ut gts tw :
  tuples_of s r = Ok (ut, gts, tw) ->
  exists geo,
    get r "geo" VNone = Ok geo /\
    (gts = [] \/
     truthy geo = true /\
     exists geo_id gt, geo_tuple geo = Ok (geo_id, gt) /\ gts = [gt]) /\
    (file_based s = true -> truthy geo = true -> gts <> []).
Proof.
  intros H. destruct s as [| |b]; simpl in H.
  - apply tuples_1B_geo in H. destruct H as (geo & test & G & T & H).
    exists geo. split; [exact G|]. split; [|discriminate].
    destruct test; [right|now left].
    split; [now apply geo_test_truthy|exact H].
  - apply tuples_geo in H. destruct H as (geo & G & H).
    exists geo. split; [exact G|].
    destruct (truthy geo).
    + destruct H as (geo_id & gt & H1 & ->). split; [|discriminate].
      right. split; [reflexivity|]. now exists geo_id, gt.
    + split; [now left|discriminate].
  - apply tuples_geo in H. destruct H as (geo & G & H).
    exists geo. split; [exact G|].
    destruct (truthy geo).
    + destruct H as (geo_id & gt & H1 & ->). split; [|discriminate].
      right. split; [reflexivity|]. now exists geo_id, gt.
    + split; [now left|discriminate].
Qed.

Lemma tuples_of_keys s r ut gts tw :
  tuples_of s r = Ok (ut, gts, tw) ->
  nth 0 ut VNone = user_key r /\ nth 1 tw VNone = post_key r.
Proof.
  intros H.
  assert (E : exists d user geo_id,
             (user_tuple user = Ok ut \/ user_tuple_1B user = Ok ut) /\
             field user "id_str" = field (field r "user") "id_str" /\
             (tweet_tuple d r user geo_id = Ok tw \/
              d = VNone /\ tweet_tuple_1B r user geo_id = Ok tw)).
  { destruct s as [| |b]; simpl in H.
    - apply tuples_1B_inv in H. destruct H as (user & geo_id & U & UT & T & _).
      exists VNone, user, geo_id. split; [now right|]. split; [|now right].
      unfold get in U. destruct r as [| | | | | |items]; try discriminate.
      unfold field at 3. unfold field_or.
      destruct (lookup "user" items); inversion U; reflexivity.
    - apply tuples_inv in H. destruct H as (user & geo_id & U & UT & T & _).
      exists (VList []), user, geo_id. split; [now left|]. split; [|now left].
      unfold subscript in U. destruct r as [| | | | | |items]; try discriminate.
      unfold field at 3. unfold field_or.
      destruct (lookup "user" items); inversion U; reflexivity.
    - apply tuples_inv in H. destruct H as (user & geo_id & U & UT & T & _).
      exists VNone, user, geo_id. split; [now left|]. split; [|now left].
      unfold subscript in U. destruct r as [| | | | | |items]; try discriminate.
      unfold field at 3. unfold field_or.
      destruct (lookup "user" items); inversion U; reflexivity. }
  destruct E as (d & user & geo_id & UT & F & T).
  apply user_tuple_fields in UT. apply tweet_tuple_fields in T.
  destruct T as (T & _). split.
  - rewrite UT. simpl. unfold user_key. now rewrite F.
  - pose proof (nth_firstn 8 tw 1 VNone) as Q. rewrite T in Q. simpl in Q.
    now rewrite <- Q.
Qed.

Lemma bound_key params r i :
  bind_params params = Ok r -> to_sql (nth i params VNone) = Ok (key i r).
Proof. apply bind_params_nth. Qed.

Lemma geo_tuple_key geo geo_id gt gr :
  geo_tuple geo = Ok (geo_id, gt) ->
  bind_batch [gt] = Ok gr ->
  Forall (fun r => key 0 r <> SNull) gr.
Proof.
  intros G B. apply geo_tuple_fields in G.
  destruct G as (lon & lat & _ & -> & ->).
  simpl in B.
  destruct (to_sql lon); simpl in B; [|discriminate].
  destruct (to_sql lat); simpl in B; [|discriminate].
  inversion B. constructor; [discriminate|constructor].
Qed.

Lemma flush_stored db ut gts tw db' :
  content (flush db [ut] gts [tw]) = Some db' ->
  exists ur gr tr,
    bind_params ut = Ok ur /\ bind_batch gts = Ok gr /\ bind_params tw = Ok tr /\
    db' = store_rows db [ur] gr [tr].
Proof.
  rewrite content_flush, !bind_batch_single.
  destruct (bind_params ut) as [ur|] eqn:Bu; [|discriminate].
  destruct (bind_batch gts) as [gr|] eqn:Bg; [|discriminate].
  destruct (bind_params tw) as [tr|] eqn:Bt; [|discriminate].
  simpl. intros C. inversion C. now exists ur, gr, tr.
Qed.

(** ** Ingesting a record again *)

Lemma store_rows_again db ur gr tr ur' gr' tr' :
  key 0 ur <> SNull -> key 0 ur' = key 0 ur ->
  key 1 tr <> SNull -> key 1 tr' = key 1 tr ->
  USER (store_rows (store_rows db [ur] gr [tr]) [ur'] gr' [tr']) =
    USER (store_rows db [ur] gr [tr]) /\
  TWEET (store_rows (store_rows db [ur] gr [tr]) [ur'] gr' [tr']) =
    TWEET (store_rows db [ur] gr [tr]) /\
  (gr' = [] \/ gr' = gr /\ Forall (fun r => key 0 r <> SNull) gr ->
   store_rows (store_rows db [ur] gr [tr]) [ur'] gr' [tr'] =
   store_rows db [ur] gr [tr]).
Proof.
  intros Hu Eu Ht Et.
  pose proof (stored_key_again User ur ur' Hu Eu) as [Nu Su].
  pose proof (stored_key_again Tweet tr tr' Ht Et) as [Nt St].
  cbn [primary_key] in Nu, Su, Nt, St.
  assert (U : insert_or_ignore 0 (stored User ur')
                (insert_or_ignore 0 (stored User ur) (USER db)) =
              insert_or_ignore 0 (stored User ur) (USER db)).
  { apply insert_present; rewrite Su; [assumption|now apply has_key_insert]. }
  assert (T : insert_or_ignore 1 (stored Tweet tr')
                (insert_or_ignore 1 (stored Tweet tr) (TWEET db)) =
              insert_or_ignore 1 (stored Tweet tr) (TWEET db)).
  { apply insert_present; rewrite St; [assumption|now apply has_key_insert]. }
  unfold store_rows; simpl. repeat split; try assumption.
  intros [-> | [-> F]]; simpl; rewrite U, T; [reflexivity|].
  rewrite insert_rows_twice; [reflexivity|].
  apply Forall_map. eapply Forall_impl; [|exact F].
  intros r N Q. apply -> (key_stored_null Geo) in Q. contradiction.
Qed.

Lemma geo_tuples_again s1 s2 r ut1 gts1 tw1 ut2 gts2 tw2 :
  tuples_of s1 r = Ok (ut1, gts1, tw1) ->
  tuples_of s2 r = Ok (ut2, gts2, tw2) ->
  file_based s1 = true \/ file_based s2 = false ->
  gts2 = [] \/ gts2 = gts1.
Proof.
  intros T1 T2 C.
  destruct (file_based s1) eqn:F.
  - destruct (tuples_of_geo _ _ _ _ _ T1) as (geo1 & G1 & C1 & N1).
    destruct (tuples_of_geo _ _ _ _ _ T2) as (geo2 & G2 & C2 & _).
    rewrite G1 in G2. inversion G2; subst geo2.
    destruct C2 as [->|(Tr & geo_id & gt & GT & ->)]; [now left|]. right.
    destruct C1 as [->|(_ & geo_id' & gt' & GT' & ->)].
    + now elim (N1 F Tr).
    + rewrite GT in GT'. now inversion GT'.
  - destruct C as [C|C]; [discriminate|].
    destruct s1; try discriminate. destruct s2; try discriminate.
    rewrite T1 in T2. inversion T2. now right.
Qed.

Lemma geo_rows_keys s r ut gts tw gr :
  tuples_of s r = Ok (ut, gts, tw) ->
  bind_batch gts = Ok gr ->
  Forall (fun row => key 0 row <> SNull) gr.
Proof.
  intros T B. destruct (tuples_of_geo _ _ _ _ _ T) as (geo & _ & C & _).
  destruct C as [->|(_ & geo_id & gt & GT & ->)].
  - inversion B. constructor.
  - eapply geo_tuple_key; eauto.
Qed.

(** C2 (amended).  Take a record whose user id and post id are not bound as
    NULL (they are not null, "NULL", "" nor a float that is not a number), a
    first ingestion that completes, and a second one, by the same or
    another strategy, that completes on the store the first one left.  The
    second one changes no USER and no TWEET row; it changes nothing at all
    when the first strategy reads a file or the second one reads the
    network; the record twice in one invocation leaves what one ingestion
    leaves; and on a store whose keys were unique the record has exactly one
    USER row and one TWEET row, and no geo_id has two GEO rows. *)
Theorem second_ingestion_changes_nothing s1 s2 db db1 db2 r ku kt :
  to_sql (user_key r) = Ok ku -> ku <> SNull ->
  to_sql (post_key r) = Ok kt -> kt <> SNull ->
  ingest s1 db [Json r] 1 = Some db1 ->
  ingest s2 db1 [Json r] 1 = Some db2 ->
  USER db2 = USER db1 /\
  TWEET db2 = TWEET db1 /\
  (file_based s1 = true \/ file_based s2 = false -> db2 = db1) /\
  ingest s1 db [Json r; Json r] 2 = Some db1 /\
  (well_keyed db ->
   key_count (primary_key User) (apply_affinity TEXT ku) (USER db2) = 1%nat /\
   key_count (primary_key Tweet) (apply_affinity TEXT kt) (TWEET db2) = 1%nat /\
   unique_keys (primary_key Geo) (GEO db2)).
Proof.
  intros Ku Kun Kt Ktn I1 I2.
  pose proof I1 as I1'. rewrite ingest_one in I1, I2.
  destruct (tuples_of s1 r) as [[[ut1 gts1] tw1]|] eqn:T1; simpl in I1;
    [|discriminate].
  destruct (tuples_of s2 r) as [[[ut2 gts2] tw2]|] eqn:T2; simpl in I2;
    [|discriminate].
  destruct (flush_stored _ _ _ _ _ I1) as (ur1 & gr1 & tr1 & Bu1 & Bg1 & Bt1 & E1).
  destruct (flush_stored _ _ _ _ _ I2) as (ur2 & gr2 & tr2 & Bu2 & Bg2 & Bt2 & E2).
  destruct (tuples_of_keys _ _ _ _ _ T1) as (KU1 & KP1).
  destruct (tuples_of_keys _ _ _ _ _ T2) as (KU2 & KP2).
  assert (A1 : key 0 ur1 = ku).
  { pose proof (bound_key _ _ 0%nat Bu1) as Q. rewrite KU1, Ku in Q. now inversion Q. }
  assert (A2 : key 0 ur2 = ku).
  { pose proof (bound_key _ _ 0%nat Bu2) as Q. rewrite KU2, Ku in Q. now inversion Q. }
  assert (A3 : key 1 tr1 = kt).
  { pose proof (bound_key _ _ 1%nat Bt1) as Q. rewrite KP1, Kt in Q. now inversion Q. }
  assert (A4 : key 1 tr2 = kt).
  { pose proof (bound_key _ _ 1%nat Bt2) as Q. rewrite KP2, Kt in Q. now inversion Q. }
  pose proof (geo_rows_keys _ _ _ _ _ _ T1 Bg1) as GK1.
  destruct (store_rows_again db ur1 gr1 tr1 ur2 gr2 tr2) as (HU & HT & HD);
    try congruence.
  destruct (store_rows_again db ur1 gr1 tr1 ur1 gr1 tr1) as (_ & _ & HS);
    try congruence.
  subst db2 db1.
  split; [exact HU|]. split; [exact HT|]. split; [|split].
  - intros C. apply HD.
    destruct (geo_tuples_again _ _ _ _ _ _ _ _ _ T1 T2 C) as [->| ->].
    + inversion Bg2. now left.
    + right. rewrite Bg1 in Bg2. inversion Bg2; subst.
      split; [reflexivity|assumption].
  - rewrite ingest_two, T1. simpl content at 1. cbv iota beta.
    rewrite content_flush_app, I1.
    rewrite content_flush, !bind_batch_single, Bu1, Bg1, Bt1. simpl.
    f_equal. apply HS. right. now split.
  - intros (WU & WG & WT).
    rewrite <- A1, <- A3.
    change (key 0 ur1) with (key (primary_key User) ur1).
    change (key 1 tr1) with (key (primary_key Tweet) tr1).
    rewrite <- !key_stored.
    unfold store_rows in *.
    cbn [USER GEO TWEET map insert_rows fold_left primary_key] in HU, HT |- *.
    rewrite HU, HT.
    split; [|split].
    + apply key_count_insert; [|exact WU].
      intros Q. apply -> (key_stored_null User) in Q. apply Kun. now rewrite <- A1.
    + apply key_count_insert; [|exact WT].
      intros Q. apply -> (key_stored_null Tweet) in Q. apply Ktn. now rewrite <- A3.
    + apply (unique_keys_insert_rows 0 (map (stored Geo) gr2)).
      apply (unique_keys_insert_rows 0 (map (stored Geo) gr1)). exact WG.
Qed.

(** ** Sources of well-formed records and undecodable lines *)

Lemma len_cons {A : Type} (a : A) (l : list A) : len (a :: l) = 1 + len l.
Proof. unfold len. simpl List.length. lia. Qed.

Lemma len_nonneg {A : Type} (l : list A) : 0 <= len l.
Proof. unfold len. lia. Qed.

Lemma gather_done f lines total p e :
  total <= p -> gather f lines total p e = Ok ([], [], [], p, e).
Proof.
  intros H. destruct lines; simpl; [reflexivity|].
  destruct (p >=? total) eqn:E; [reflexivity|]. rewrite Z.geb_leb in E.
  apply Z.leb_gt in E. lia.
Qed.

Lemma ends_with_record_tail l lines :
  ends_with_record (l :: lines) = true ->
  lines <> [] \/ is_record l = true.
Proof.
  unfold ends_with_record. destruct lines; [now right|left; discriminate].
Qed.

Lemma ends_with_record_cons l lines :
  ends_with_record (l :: lines) = true -> ends_with_record lines = true.
Proof.
  unfold ends_with_record. destruct lines as [|l' lines]; [reflexivity|].
  intros H. change (last (l :: l' :: lines) (Json VNone))
              with (last (l' :: lines) (Json VNone)) in H. exact H.
Qed.

Lemma records_nonempty lines :
  lines <> [] -> ends_with_record lines = true -> 1 <= len (records lines).
Proof.
  induction lines as [|l lines IH]; intros H E; [contradiction|].
  destruct l as [| |v].
  - destruct (ends_with_record_tail _ _ E) as [N|N]; [|discriminate].
    apply IH; [exact N|now apply ends_with_record_cons in E].
  - destruct (ends_with_record_tail _ _ E) as [N|N]; [|discriminate].
    apply IH; [exact N|now apply ends_with_record_cons in E].
  - change (records (Json v :: lines)) with (v :: records lines).
    rewrite len_cons. pose proof (len_nonneg (records lines)). lia.
Qed.

(** The loop reads every line up to the last record and nothing after it. *)
Lemma gather_complete f lines rest : forall p e total,
  Forall (fun v => exists t, f v = Ok t) (records lines) ->
  ends_with_record lines = true ->
  p + len (records lines) = total ->
  exists ts,
    Forall2 (fun v t => f v = Ok t) (records lines) ts /\
    gather f (lines ++ rest) total p e =
    Ok (map (fun t => fst (fst t)) ts, List.concat (map (fun t => snd (fst t)) ts),
        map snd ts, total, e + len (undecodable lines)).
Proof.
  induction lines as [|l lines IH]; intros p e total F E P.
  - exists []. split; [constructor|]. simpl in *.
    assert (P' : total = p) by (unfold len in P; simpl in P; lia).
    rewrite gather_done by lia.
    rewrite P'. change (len (undecodable [])) with 0.
    now rewrite Z.add_0_r.
  - pose proof (ends_with_record_cons _ _ E) as E'.
    destruct l as [| |v].
    + destruct (ends_with_record_tail _ _ E) as [N|N]; [|discriminate].
      pose proof (records_nonempty _ N E') as R.
      change (records (Blank :: lines)) with (records lines) in *.
      destruct (IH p (e + 1) total F E' P) as (ts & F2 & G).
      exists ts. split; [exact F2|].
      change ((Blank :: lines) ++ rest) with (Blank :: (lines ++ rest)).
      cbn [gather json_loads].
      destruct (p >=? total) eqn:C; [apply Z.geb_le in C; lia|].
      rewrite G. change (undecodable (Blank :: lines)) with (Blank :: undecodable lines).
      rewrite len_cons.
      now replace (e + (1 + len (undecodable lines)))
        with (e + 1 + len (undecodable lines)) by lia.
    + destruct (ends_with_record_tail _ _ E) as [N|N]; [|discriminate].
      pose proof (records_nonempty _ N E') as R.
      change (records (Garbage :: lines)) with (records lines) in *.
      destruct (IH p (e + 1) total F E' P) as (ts & F2 & G).
      exists ts. split; [exact F2|].
      change ((Garbage :: lines) ++ rest) with (Garbage :: (lines ++ rest)).
      cbn [gather json_loads].
      destruct (p >=? total) eqn:C; [apply Z.geb_le in C; lia|].
      rewrite G.
      change (undecodable (Garbage :: lines)) with (Garbage :: undecodable lines).
      rewrite len_cons.
      now replace (e + (1 + len (undecodable lines)))
        with (e + 1 + len (undecodable lines)) by lia.
    + change (records (Json v :: lines)) with (v :: records lines) in *.
      rewrite len_cons in P. pose proof (len_nonneg (records lines)).
      apply Forall_cons_iff in F. destruct F as [[[[ut gts] tw] Fv] F'].
      destruct (IH (p + 1) e total F' E') as (ts & F2 & G); [lia|].
      exists ((ut, gts, tw) :: ts). split; [now constructor|].
      change ((Json v :: lines) ++ rest) with (Json v :: (lines ++ rest)).
      cbn [gather json_loads].
      destruct (p >=? total) eqn:C; [apply Z.geb_le in C; lia|].
      rewrite Fv. cbn [bind]. rewrite G. reflexivity.
Qed.

Lemma ingestible_inv s v :
  ingestible s v ->
  exists ut gts tw ur gr tr,
    tuples_of s v = Ok (ut, gts, tw) /\
    bind_params ut = Ok ur /\ bind_batch gts = Ok gr /\ bind_params tw = Ok tr.
Proof.
  unfold ingestible. rewrite ingest_one.
  destruct (tuples_of s v) as [[[ut gts] tw]|]; simpl; [|contradiction].
  destruct (content (flush create_tables [ut] gts [tw])) as [db'|] eqn:C;
    [|contradiction].
  intros _. apply flush_stored in C.
  destruct C as (ur & gr & tr & Bu & Bg & Bt & _).
  now exists ut, gts, tw, ur, gr, tr.
Qed.

(** All the gathered tuples can be bound, and the TWEET rows carry the post
    keys of the records. *)
Lemma gathered_rows s vs ts :
  Forall2 (fun v t => tuples_of s v = Ok t) vs ts ->
  Forall (ingestible s) vs ->
  exists urs grs trs,
    content (bind_batch (map (fun t => fst (fst t)) ts)) = Some urs /\
    content (bind_batch (List.concat (map (fun t => snd (fst t)) ts))) = Some grs /\
    content (bind_batch (map snd ts)) = Some trs /\
    Forall2 (fun v tr => to_sql (post_key v) = Ok (key 1 tr)) vs trs.
Proof.
  induction 1 as [|v [[ut gts] tw] vs ts T F2 IH]; intros I.
  - exists [], [], []. repeat split; constructor.
  - inversion I as [|? ? Iv I']; subst.
    destruct (IH I') as (urs & grs & trs & Bu & Bg & Bt & K).
    destruct (ingestible_inv _ _ Iv) as (ut' & gts' & tw' & ur & gr & tr & T' & Cu & Cg & Ct).
    rewrite T in T'. inversion T'; subst ut' gts' tw'.
    exists (ur :: urs), (gr ++ grs), (tr :: trs).
    cbn [map List.concat fst snd].
    split; [|split; [|split]].
    + change (ut :: map (fun t => fst (fst t)) ts)
        with ([ut] ++ map (fun t => fst (fst t)) ts).
      rewrite bind_batch_app, bind_batch_single, Cu, Bu. reflexivity.
    + rewrite bind_batch_app, Cg, Bg. reflexivity.
    + change (tw :: map snd ts) with ([tw] ++ map snd ts).
      rewrite bind_batch_app, bind_batch_single, Ct, Bt. reflexivity.
    + constructor; [|exact K].
      destruct (tuples_of_keys _ _ _ _ _ T) as (_ & KP).
      rewrite <- KP. now apply bound_key.
Qed.

Lemma insert_rows_fresh pk rs : forall t,
  NoDup (map (key pk) rs) ->
  Forall (fun r => key pk r <> SNull /\ has_key pk (key pk r) t = false) rs ->
  List.length (insert_rows pk rs t) = (List.length t + List.length rs)%nat.
Proof.
  induction rs as [|r rs IH]; intros t D F; simpl; [lia|].
  inversion D as [|? ? Nin D']; subst.
  inversion F as [|? ? [Hn Hk] F']; subst.
  rewrite insert_fresh by assumption.
  rewrite IH; [rewrite length_app; simpl; lia|exact D'|].
  rewrite Forall_forall in *. intros r' Hr'.
  destruct (F' r' Hr') as [Hn' Hk']. split; [exact Hn'|].
  rewrite has_key_app, Hk'. simpl.
  destruct (sqlval_eqb (key pk r) (key pk r')) eqn:E; [|reflexivity].
  apply sqlval_eqb_eq in E. elim Nin. rewrite E. now apply in_map.
Qed.

Lemma post_keys_of_rows vs trs ks :
  Forall2 (fun v tr => to_sql (post_key v) = Ok (key 1 tr)) vs trs ->
  map (fun v => to_sql (post_key v)) vs = map Ok ks ->
  map (key 1) trs = ks.
Proof.
  intros F. revert ks.
  induction F as [|v tr vs trs H F IH]; intros ks E; destruct ks as [|k ks];
    simpl in E; try discriminate; [reflexivity|].
  inversion E as [[E1 E2]]. rewrite H in E1. inversion E1. simpl.
  f_equal. now apply IH.
Qed.

(** C5 (amended).  A source of records the strategy can ingest, with post
    ids that are not NULL, that the TWEET table keeps as pairwise different
    texts and does not hold yet, and of undecodable lines that all stand
    before the last record, ingested with the number of records as target:
    the invocation completes, reads nothing after the last record, counts
    every record, and adds one TWEET row per record.  The two file strategies
    report the number of undecodable lines, the blank ones among them, as
    their error counter; the network strategy keeps no such counter. *)
Theorem malformed_lines_are_counted s db lines rest ks :
  Forall (ingestible s) (records lines) ->
  ends_with_record lines = true ->
  map (fun v => to_sql (post_key v)) (records lines) = map Ok ks ->
  NoDup (map (apply_affinity TEXT) ks) ->
  Forall (fun k => k <> SNull /\
                   has_key (primary_key Tweet) (apply_affinity TEXT k) (TWEET db) = false)
         ks ->
  exists db',
    run s db (lines ++ rest) (len (records lines)) =
      Ok (db', len (records lines), counter s (len (undecodable lines))) /\
    len (TWEET db') = len (TWEET db) + len (records lines).
Proof.
  intros I E K D F.
  destruct (gather_complete (tuples_of s) lines rest 0 0 (len (records lines)))
    as (ts & F2 & G); [|exact E|lia|].
  { eapply Forall_impl; [|exact I]. intros v Iv.
    destruct (ingestible_inv _ _ Iv) as (ut & gts & tw & _ & _ & _ & T & _).
    now exists (ut, gts, tw). }
  destruct (gathered_rows s _ _ F2 I) as (urs & grs & trs & Bu & Bg & Bt & KK).
  pose proof (post_keys_of_rows _ _ _ KK K) as MK.
  exists (store_rows db urs grs trs). split.
  - apply content_some. rewrite run_gather, G. cbn [bind].
    rewrite content_bind, content_flush, Bu, Bg, Bt. reflexivity.
  - assert (SK : map (key 1) (map (stored Tweet) trs) = map (apply_affinity TEXT) ks).
    { rewrite <- MK, !map_map. apply map_ext. intros tr.
      apply (key_stored Tweet). }
    cbn [store_rows TWEET primary_key]. unfold len. rewrite insert_rows_fresh.
    + rewrite length_map, <- (Forall2_length KK). lia.
    + now rewrite SK.
    + rewrite <- MK in F. apply Forall_map in F. apply Forall_map.
      eapply Forall_impl; [|exact F]. cbn beta. intros tr [N H].
      pose proof (key_stored Tweet tr) as Q. cbn [primary_key] in Q.
      rewrite Q. split; [|exact H].
      intros Z. apply apply_affinity_null in Z. contradiction.
Qed.

(** ** What is stored for an attribute *)





(** ** Two posts and one undecodable line *)

Lemma tuples_at d r ut gts tw a b :
  tuples d r = Ok (ut, gts, tw) ->
  field (field r "geo") "coordinates" = VList [a; b] ->
  gts = [[VStr (format a ++ "_" ++ format b); VStr "Point"; a; b]] /\
  nth 10 tw VNone = VStr (format a ++ "_" ++ format b).
Proof.
  unfold tuples. intros H C.
  destruct (subscript r "user") as [user|] eqn:U; cbn [bind] in H; [|discriminate].
  destruct (user_tuple user) as [ut'|]; cbn [bind] in H; [|discriminate].
  destruct r as [| | | | | |items]; try discriminate U.
  unfold get in H. unfold field at 2 in C. unfold field_or in C.
  destruct (lookup "geo" items) as [geo|]; [|discriminate C].
  cbn [bind] in H. unfold field, field_or in C.
  destruct geo as [| | | | | |gitems]; try discriminate C.
  destruct (lookup "coordinates" gitems) as [coords|] eqn:L; [|discriminate C].
  subst coords.
  assert (Tr : truthy (VDict gitems) = true) by (now destruct gitems).
  rewrite Tr in H. unfold geo_tuple, subscript in H. rewrite L in H.
  cbn [bind unpack2 iterate] in H.
  destruct (tweet_tuple d (VDict items) user
              (VStr (format a ++ "_" ++ format b))) as [tw'|] eqn:T;
    cbn [bind] in H; [|discriminate].
  injection H as <- <- <-. split; [reflexivity|].
  destruct (tweet_tuple_fields d (VDict items) user _ tw' (or_introl T))
    as (_ & _ & _ & G).
  exact G.
Qed.

Lemma insert_rows_same pk r r' :
  key pk r <> SNull -> key pk r' = key pk r ->
  insert_rows pk [r; r'] [] = [r].
Proof.
  intros N E. cbn [insert_rows fold_left].
  rewrite (insert_fresh pk r []) by reflexivity. cbn [app].
  apply insert_present; rewrite E; [exact N|].
  unfold has_key. cbn [existsb]. now rewrite sqlval_eqb_refl.
Qed.

Lemma insert_rows_distinct pk r r' :
  key pk r <> key pk r' ->
  insert_rows pk [r; r'] [] = [r; r'].
Proof.
  intros D. cbn [insert_rows fold_left].
  rewrite (insert_fresh pk r []) by reflexivity. cbn [app].
  apply (insert_fresh pk r' [r]). unfold has_key. cbn [existsb].
  destruct (sqlval_eqb (key pk r) (key pk r')) eqn:E; [|reflexivity].
  apply sqlval_eqb_eq in E. contradiction.
Qed.

(** C9 (amended).  Two posts that the batched strategy can ingest, by an
    actor whose id is not stored as NULL, with post ids that are stored as
    two different texts, both with the coordinates 10.0 and 20.0, and one
    undecodable line, wherever it stands: with target 3 and batch size 1 the
    fresh tables end with one USER row, one GEO row, two TWEET rows that both
    carry its geo_id, and the counters 2 and 1. *)
Theorem scenario_two_posts_one_invalid_line r1 r2 bad lines ku k1 k2 :
  ingestible (Batch_1D 1) r1 ->
  ingestible (Batch_1D 1) r2 ->
  to_sql (user_key r1) = Ok ku ->
  to_sql (user_key r2) = Ok ku ->
  ku <> SNull ->
  to_sql (post_key r1) = Ok k1 ->
  to_sql (post_key r2) = Ok k2 ->
  apply_affinity TEXT k1 <> apply_affinity TEXT k2 ->
  field (field r1 "geo") "coordinates" = VList [VFloat "10.0"; VFloat "20.0"] ->
  field (field r2 "geo") "coordinates" = VList [VFloat "10.0"; VFloat "20.0"] ->
  json_loads bad = None ->
  In lines [[bad; Json r1; Json r2]; [Json r1; bad; Json r2]; [Json r1; Json r2; bad]] ->
  exists db,
    batch_insert_data_1D create_tables lines 3 1 = Ok (db, 2, 1) /\
    List.length (USER db) = 1%nat /\
    map (key (primary_key Geo)) (GEO db) = [SText "10.0_20.0"] /\
    map (fun r => (key (primary_key Tweet) r, nth 10 r SNull)) (TWEET db) =
      [(apply_affinity TEXT k1, SText "10.0_20.0");
       (apply_affinity TEXT k2, SText "10.0_20.0")].
Proof.
  intros I1 I2 Ku1 Ku2 Kun K1 K2 D C1 C2 B L.
  destruct (ingestible_inv _ _ I1)
    as (ut1 & gts1 & tw1 & ur1 & gr1 & tr1 & T1 & Bu1 & Bg1 & Bt1).
  destruct (ingestible_inv _ _ I2)
    as (ut2 & gts2 & tw2 & ur2 & gr2 & tr2 & T2 & Bu2 & Bg2 & Bt2).
  destruct (tuples_of_keys _ _ _ _ _ T1) as (KU1 & KP1).
  destruct (tuples_of_keys _ _ _ _ _ T2) as (KU2 & KP2).
  cbn [tuples_of] in T1, T2.
  destruct (tuples_at _ _ _ _ _ _ _ T1 C1) as [G1 W1].
  destruct (tuples_at _ _ _ _ _ _ _ T2 C2) as [G2 W2].
  subst gts1 gts2. clear Bg1 Bg2 gr1 gr2.
  set (gt := [VStr (format (VFloat "10.0") ++ "_" ++ format (VFloat "20.0"));
              VStr "Point"; VFloat "10.0"; VFloat "20.0"]) in *.
  set (gr := [SText "10.0_20.0"; SText "Point"; SReal "10.0"; SReal "20.0"]).
  assert (G : gather (tuples VNone) lines 3 0 0 =
              Ok ([ut1; ut2], [gt; gt], [tw1; tw2], 2, 1)).
  { destruct bad as [| |v]; try discriminate B;
      destruct L as [<-|[<-|[<-|[]]]]; cbn [gather json_loads];
      repeat (rewrite ?T1, ?T2; cbn [bind gather json_loads Z.geb Z.compare Z.add
                                     Pos.compare Pos.compare_cont Pos.add Pos.succ app]);
      reflexivity. }
  assert (Bu : bind_batch [ut1; ut2] = Ok [ur1; ur2])
    by (cbn [bind_batch]; rewrite Bu1, Bu2; reflexivity).
  assert (Bt : bind_batch [tw1; tw2] = Ok [tr1; tr2])
    by (cbn [bind_batch]; rewrite Bt1, Bt2; reflexivity).
  assert (Bg : bind_batch [gt; gt] = Ok [gr; gr]) by reflexivity.
  exists (store_rows create_tables [ur1; ur2] [gr; gr] [tr1; tr2]).
  split.
  - apply content_some. rewrite batch_insert_data_1D_gather, G. cbn [bind].
    rewrite content_bind, content_flush, Bu, Bg, Bt. reflexivity.
  - assert (A1 : key 0 ur1 = ku).
    { pose proof (bound_key _ _ 0%nat Bu1) as Q. rewrite KU1, Ku1 in Q. now inversion Q. }
    assert (A2 : key 0 ur2 = ku).
    { pose proof (bound_key _ _ 0%nat Bu2) as Q. rewrite KU2, Ku2 in Q. now inversion Q. }
    assert (A3 : key 1 tr1 = k1).
    { pose proof (bound_key _ _ 1%nat Bt1) as Q. rewrite KP1, K1 in Q. now inversion Q. }
    assert (A4 : key 1 tr2 = k2).
    { pose proof (bound_key _ _ 1%nat Bt2) as Q. rewrite KP2, K2 in Q. now inversion Q. }
    destruct (stored_key_again User ur1 ur2) as [Nu Su];
      [cbn [primary_key]; congruence..|].
    pose proof (key_stored Tweet tr1) as S1. pose proof (key_stored Tweet tr2) as S2.
    cbn [primary_key] in Nu, Su, S1, S2. rewrite A3 in S1. rewrite A4 in S2.
    assert (R1 : nth 10 (stored Tweet tr1) SNull = SText "10.0_20.0").
    { unfold stored. rewrite (nth_coerce (columns Tweet) tr1 10 TEXT eq_refl).
      pose proof (bind_params_nth _ _ 10%nat Bt1) as Q. rewrite W1 in Q.
      injection Q as <-. reflexivity. }
    assert (R2 : nth 10 (stored Tweet tr2) SNull = SText "10.0_20.0").
    { unfold stored. rewrite (nth_coerce (columns Tweet) tr2 10 TEXT eq_refl).
      pose proof (bind_params_nth _ _ 10%nat Bt2) as Q. rewrite W2 in Q.
      injection Q as <-. reflexivity. }
    unfold store_rows. cbn [USER GEO TWEET create_tables map primary_key].
    rewrite (insert_rows_same 0 (stored User ur1) (stored User ur2) Nu Su).
    rewrite (insert_rows_distinct 1 (stored Tweet tr1) (stored Tweet tr2))
      by (rewrite S1, S2; exact D).
    split; [reflexivity|]. split; [reflexivity|].
    cbn [map]. now rewrite S1, S2, R1, R2.
Qed.

(** * Further properties of the strategies *)

(** ** What a completed invocation has done *)

Lemma run_inv s db lines total db' p c :
  run s db lines total = Ok (db', p, c) ->
  exists ub gb tb e urs grs trs,
    gather (tuples_of s) lines total 0 0 = Ok (ub, gb, tb, p, e) /\
    bind_batch ub = Ok urs /\ bind_batch gb = Ok grs /\ bind_batch tb = Ok trs /\
    db' = store_rows db urs grs trs /\ c = counter s e.
Proof.
  intros H. assert (C : content (run s db lines total) = Some (db', p, c))
    by now rewrite H.
  rewrite run_gather in C.
  destruct (gather (tuples_of s) lines total 0 0) as [[[[[ub gb] tb] p0] e]|];
    [|discriminate].
  cbn [bind] in C. rewrite content_bind, content_flush in C.
  destruct (bind_batch ub) as [urs|] eqn:Bu; [|discriminate].
  destruct (bind_batch gb) as [grs|] eqn:Bg; [|discriminate].
  destruct (bind_batch tb) as [trs|] eqn:Bt; [|discriminate].
  simpl in C. inversion C; subst.
  now exists ub, gb, tb, e, urs, grs, trs.
Qed.

Lemma bind_batch_rows batch : forall rs,
  bind_batch batch = Ok rs -> Forall2 (fun x r => bind_params x = Ok r) batch rs.
Proof.
  induction batch as [|x batch IH]; intros rs; simpl.
  - intros H; inversion H. constructor.
  - destruct (bind_params x) as [r|] eqn:E; simpl; [|discriminate].
    destruct (bind_batch batch) as [rs'|]; simpl; [|discriminate].
    intros H; inversion H; subst. constructor; [exact E|now apply IH].
Qed.

Lemma bind_batch_length batch rs :
  bind_batch batch = Ok rs -> len rs = len batch.
Proof.
  intros H. apply bind_batch_rows in H. apply Forall2_length in H.
  unfold len. now rewrite H.
Qed.

Lemma insert_rows_extends pk rs : forall t,
  exists extra,
    insert_rows pk rs t = t ++ extra /\ len extra <= len rs /\ incl extra rs.
Proof.
  induction rs as [|r rs IH]; intros t; simpl.
  - exists []. rewrite app_nil_r. repeat split; [reflexivity|apply incl_refl].
  - destruct (IH (insert_or_ignore pk r t)) as (extra & E & L & I).
    unfold insert_or_ignore in *. destruct (conflicts pk r t).
    + exists extra. split; [exact E|]. split.
      * rewrite len_cons. lia.
      * now apply incl_tl.
    + exists (r :: extra). split; [now rewrite E, <- app_assoc|]. split.
      * rewrite !len_cons. lia.
      * apply incl_cons; [now left|now apply incl_tl].
Qed.

Lemma tuples_of_one_geo s v ut gts tw :
  tuples_of s v = Ok (ut, gts, tw) -> len gts <= 1.
Proof.
  intros H. destruct (tuples_of_geo _ _ _ _ _ H) as (geo & _ & C & _).
  destruct C as [->|(_ & geo_id & gt & _ & ->)]; unfold len; simpl; lia.
Qed.

Lemma len_app {A : Type} (l l' : list A) : len (l ++ l') = len l + len l'.
Proof. unfold len. rewrite length_app. lia. Qed.

Lemma len_map {A B : Type} (f : A -> B) (l : list A) : len (map f l) = len l.
Proof. unfold len. now rewrite length_map. Qed.

(** The counters and the sizes of what the loop gathers. *)
Lemma gather_counts f lines total :
  (forall v ut gts tw, f v = Ok (ut, gts, tw) -> len gts <= 1) ->
  forall p e ub gb tb p' e',
    gather f lines total p e = Ok (ub, gb, tb, p', e') ->
    len ub = p' - p /\ len tb = p' - p /\ len gb <= p' - p /\
    0 <= p' - p <= len (records lines) /\
    0 <= e' - e <= len (undecodable lines) /\
    p' <= Z.max p total.
Proof.
  intros G. induction lines as [|l lines IH]; intros p e ub gb tb p' e' H.
  - simpl in H. inversion H; subst. unfold len; simpl. lia.
  - cbn [gather] in H. destruct (p >=? total) eqn:C.
    + inversion H; subst.
      pose proof (len_nonneg (records (l :: lines))).
      pose proof (len_nonneg (undecodable (l :: lines))).
      change (len (@nil (list value))) with 0. lia.
    + rewrite Z.geb_leb in C. apply Z.leb_gt in C.
      destruct l as [| |v]; cbn [json_loads] in H.
      * apply IH in H. change (records (Blank :: lines)) with (records lines).
        change (undecodable (Blank :: lines)) with (Blank :: undecodable lines).
        rewrite len_cons. lia.
      * apply IH in H. change (records (Garbage :: lines)) with (records lines).
        change (undecodable (Garbage :: lines)) with (Garbage :: undecodable lines).
        rewrite len_cons. lia.
      * destruct (f v) as [[[ut gts] tw]|] eqn:F; cbn [bind] in H; [|discriminate].
        destruct (gather f lines total (p + 1) e)
          as [[[[[ub0 gb0] tb0] p0] e0]|] eqn:R; cbn [bind] in H; [|discriminate].
        inversion H; subst. apply IH in R. apply G in F.
        change (records (Json v :: lines)) with (v :: records lines).
        change (undecodable (Json v :: lines)) with (undecodable lines).
        rewrite !len_cons, len_app. lia.
Qed.

(** X1: rows are only ever appended.  A completed invocation leaves every
    table as it was, followed by at most one new row per processed record. *)
Theorem run_appends_only s db lines total db' p c :
  run s db lines total = Ok (db', p, c) ->
  exists new_users new_geos new_tweets,
    USER db' = USER db ++ new_users /\
    GEO db' = GEO db ++ new_geos /\
    TWEET db' = TWEET db ++ new_tweets /\
    len new_users <= p /\ len new_geos <= p /\ len new_tweets <= p.
Proof.
  intros H. apply run_inv in H.
  destruct H as (ub & gb & tb & e & urs & grs & trs & G & Bu & Bg & Bt & -> & _).
  apply gather_counts in G; [|exact (tuples_of_one_geo s)].
  destruct G as (Lu & Lt & Lg & _).
  apply bind_batch_length in Bu, Bg, Bt.
  destruct (insert_rows_extends (primary_key User) (map (stored User) urs) (USER db))
    as (eu & Eu & Nu & _).
  destruct (insert_rows_extends (primary_key Geo) (map (stored Geo) grs) (GEO db))
    as (eg & Eg & Ng & _).
  destruct (insert_rows_extends (primary_key Tweet) (map (stored Tweet) trs) (TWEET db))
    as (et & Et & Nt & _).
  rewrite len_map in Nu, Ng, Nt.
  exists eu, eg, et. simpl. repeat split; try assumption; lia.
Qed.

(** X2: the counters.  The success counter never passes the target nor the
    number of decodable lines, and the error counter of the file strategies
    never passes the number of lines that [json.loads] rejects, the blank
    ones among them. *)
Theorem run_counters s db lines total db' p c :
  run s db lines total = Ok (db', p, c) ->
  0 <= p <= Z.max 0 total /\
  p <= len (records lines) /\
  match c with
  | Some e => file_based s = true /\ 0 <= e <= len (undecodable lines)
  | None => s = Web_1B
  end.
Proof.
  intros H. apply run_inv in H.
  destruct H as (ub & gb & tb & e & urs & grs & trs & G & _ & _ & _ & _ & ->).
  apply gather_counts in G; [|exact (tuples_of_one_geo s)].
  destruct G as (_ & _ & _ & Hp & He & Hm).
  split; [lia|]. split; [lia|].
  unfold counter. destruct s; simpl; try reflexivity; split; try reflexivity; lia.
Qed.

(** X3: nothing to do.  With an empty source, or a target that is not
    positive, every strategy completes, reads no line and leaves the store
    and both counters untouched. *)
Theorem run_nothing_to_do s db lines total :
  lines = [] \/ total <= 0 ->
  run s db lines total = Ok (db, 0, counter s 0).
Proof.
  intros H. apply content_some. rewrite run_gather.
  assert (G : gather (tuples_of s) lines total 0 0 = Ok ([], [], [], 0, 0)).
  { destruct H as [-> | H]; [reflexivity|now apply gather_done]. }
  rewrite G. reflexivity.
Qed.

(** X4: keys stay unique.  A completed invocation on a store in which no
    two rows of a table share a key other than NULL leaves such a store. *)
Theorem run_keeps_keys_unique s db lines total db' p c :
  run s db lines total = Ok (db', p, c) ->
  well_keyed db -> well_keyed db'.
Proof.
  intros H (WU & WG & WT). apply run_inv in H.
  destruct H as (ub & gb & tb & e & urs & grs & trs & _ & _ & _ & _ & -> & _).
  repeat split; simpl; now apply unique_keys_insert_rows.
Qed.

(** ** References between the tables *)

Lemma null_checker_cases v :
  null_checker v = v \/ v = VStr "NULL" \/ v = VStr "".
Proof.
  unfold null_checker. destruct v; try (left; reflexivity). simpl.
  destruct (String.eqb s "NULL") eqn:E1.
  - apply String.eqb_eq in E1. subst. right; now left.
  - destruct (String.eqb s "") eqn:E2; [|now left].
    apply String.eqb_eq in E2. subst. right; now right.
Qed.

(** How the TWEET tuple of a record refers to its USER and GEO tuples. *)
Lemma tuples_of_links s v ut gts tw :
  tuples_of s v = Ok (ut, gts, tw) ->
  (nth 10 tw VNone = VNone \/
   exists g rest, gts = [VStr g :: rest] /\ nth 10 tw VNone = VStr g) /\
  (nth 9 tw VNone = nth 0 ut VNone \/
   nth 9 tw VNone = VStr "NULL" \/ nth 9 tw VNone = VStr "").
Proof.
  intros H.
  assert (E : exists d user geo_id,
             (user_tuple user = Ok ut \/ user_tuple_1B user = Ok ut) /\
             (tweet_tuple d v user geo_id = Ok tw \/
              d = VNone /\ tweet_tuple_1B v user geo_id = Ok tw) /\
             (gts = [] /\ geo_id = VNone \/
              exists geo gt, geo_tuple geo = Ok (geo_id, gt) /\ gts = [gt])).
  { destruct s as [| |b]; simpl in H.
    - apply tuples_1B_inv in H. destruct H as (user & geo_id & _ & UT & T & G).
      exists VNone, user, geo_id. split; [now right|]. split; [now right|exact G].
    - apply tuples_inv in H. destruct H as (user & geo_id & _ & UT & T & G).
      exists (VList []), user, geo_id. split; [now left|]. split; [now left|exact G].
    - apply tuples_inv in H. destruct H as (user & geo_id & _ & UT & T & G).
      exists VNone, user, geo_id. split; [now left|]. split; [now left|exact G]. }
  destruct E as (d & user & geo_id & UT & T & G).
  apply user_tuple_fields in UT. apply tweet_tuple_fields in T.
  destruct T as (_ & _ & T9 & T10). split.
  - rewrite T10. destruct G as [[_ ->]|(geo & gt & G & ->)]; [now left|].
    right. apply geo_tuple_fields in G. destruct G as (lon & lat & _ & -> & ->).
    eexists. eexists. split; reflexivity.
  - rewrite T9, UT. simpl.
    destruct (null_checker_cases (field user "id_str")) as [E|E];
      [left; now rewrite E|right; exact E].
Qed.

Lemma gather_links s lines total : forall p e ub gb tb p' e',
  gather (tuples_of s) lines total p e = Ok (ub, gb, tb, p', e') ->
  Forall (fun tw =>
            (nth 10 tw VNone = VNone \/
             exists g rest, In (VStr g :: rest) gb /\ nth 10 tw VNone = VStr g) /\
            ((exists ut, In ut ub /\ nth 9 tw VNone = nth 0 ut VNone) \/
             nth 9 tw VNone = VStr "NULL" \/ nth 9 tw VNone = VStr ""))
         tb.
Proof.
  induction lines as [|l lines IH]; intros p e ub gb tb p' e' H.
  - simpl in H. inversion H. constructor.
  - cbn [gather] in H. destruct (p >=? total); [inversion H; constructor|].
    destruct (json_loads l) as [v|]; [|now apply IH in H].
    destruct (tuples_of s v) as [[[ut gts] tw]|] eqn:T; cbn [bind] in H;
      [|discriminate].
    destruct (gather (tuples_of s) lines total (p + 1) e)
      as [[[[[ub0 gb0] tb0] p0] e0]|] eqn:R; cbn [bind] in H; [|discriminate].
    inversion H; subst. apply IH in R. apply tuples_of_links in T.
    destruct T as (TG & TU). constructor.
    + split.
      * destruct TG as [TG|(g & rest & -> & TG)]; [now left|].
        right. exists g, rest. split; [now left|exact TG].
      * destruct TU as [TU|TU]; [|now right].
        left. exists ut. split; [now left|exact TU].
    + eapply Forall_impl; [|exact R]. intros tw' (G1 & G2).
      split.
      * destruct G1 as [G1|(g & rest & I & G1)]; [now left|].
        right. exists g, rest. split; [|exact G1]. apply in_or_app. now right.
      * destruct G2 as [(ut' & I & G2)|G2]; [|now right].
        left. exists ut'. split; [now right|exact G2].
Qed.

Lemma has_key_inserted pk r rs : forall t,
  In r rs -> key pk r <> SNull ->
  has_key pk (key pk r) (insert_rows pk rs t) = true.
Proof.
  induction rs as [|r' rs IH]; intros t I N; [contradiction|].
  simpl. destruct I as [->|I].
  - apply has_key_insert_rows_mono. now apply has_key_insert.
  - now apply IH.
Qed.

Lemma bound_row_of batch rs x :
  Forall2 (fun x r => bind_params x = Ok r) batch rs ->
  In x batch -> exists r, In r rs /\ bind_params x = Ok r.
Proof.
  induction 1 as [|x' r' batch rs B F IH]; intros I; [contradiction|].
  destruct I as [->|I].
  - exists r'. split; [now left|exact B].
  - destruct (IH I) as (r & Ir & Br). exists r. split; [now right|exact Br].
Qed.

Lemma bound_tuple_of batch rs r :
  Forall2 (fun x r => bind_params x = Ok r) batch rs ->
  In r rs -> exists x, In x batch /\ bind_params x = Ok r.
Proof.
  induction 1 as [|x' r' batch rs B F IH]; intros I; [contradiction|].
  destruct I as [->|I].
  - exists x'. split; [now left|exact B].
  - destruct (IH I) as (x & Ix & Bx). exists x. split; [now right|exact Bx].
Qed.

(** What the rows of a completed invocation refer to. *)
Lemma stored_links s lines total ub gb tb p e urs grs trs db :
  gather (tuples_of s) lines total 0 0 = Ok (ub, gb, tb, p, e) ->
  bind_batch ub = Ok urs -> bind_batch gb = Ok grs -> bind_batch tb = Ok trs ->
  Forall (fun t =>
            (nth 10 t SNull = SNull \/
             has_key 0 (nth 10 t SNull)
               (insert_rows 0 (map (stored Geo) grs) (GEO db)) = true) /\
            (nth 9 t SNull = SNull \/ nth 9 t SNull = SText "NULL" \/
             nth 9 t SNull = SText "" \/
             has_key 0 (nth 9 t SNull)
               (insert_rows 0 (map (stored User) urs) (USER db)) = true))
         (map (stored Tweet) trs).
Proof.
  intros G Bu Bg Bt. apply gather_links in G.
  apply bind_batch_rows in Bu, Bg, Bt.
  apply Forall_map. rewrite Forall_forall in *. intros t It.
  destruct (bound_tuple_of _ _ _ Bt It) as (tw & Itw & Btw).
  destruct (G tw Itw) as (LG & LU).
  pose proof (bind_params_nth _ _ 10%nat Btw) as N10.
  pose proof (bind_params_nth _ _ 9%nat Btw) as N9.
  unfold stored at 1 2 4 5 6 7.
  rewrite (nth_coerce (columns Tweet) t 10 TEXT eq_refl).
  rewrite (nth_coerce (columns Tweet) t 9 TEXT eq_refl).
  split.
  - destruct LG as [LG|(g & rest & Ig & LG)].
    + left. rewrite LG in N10. simpl in N10. inversion N10. reflexivity.
    + right. rewrite LG in N10. simpl in N10. inversion N10 as [K].
      destruct (bound_row_of _ _ _ Bg Ig) as (gr & Igr & Bgr).
      pose proof (bind_params_nth _ _ 0%nat Bgr) as N0. simpl in N0.
      inversion N0 as [K0].
      assert (KS : key 0 (stored Geo gr) = SText g).
      { pose proof (key_stored Geo gr) as Q. cbn [primary_key] in Q.
        rewrite Q. unfold key. now rewrite <- K0. }
      cbn [apply_affinity]. rewrite <- KS.
      apply has_key_inserted; [now apply in_map|]. rewrite KS. discriminate.
  - destruct LU as [(ut & Iu & LU)|[LU|LU]].
    + destruct (bound_row_of _ _ _ Bu Iu) as (ur & Iur & Bur).
      pose proof (bind_params_nth _ _ 0%nat Bur) as N0.
      rewrite LU, N0 in N9. inversion N9 as [K].
      pose proof (key_stored User ur) as Q. cbn [primary_key] in Q.
      unfold key at 2 in Q. rewrite <- Q.
      destruct (key 0 (stored User ur)) eqn:E; [now left| | |];
        right; right; right; rewrite <- E;
        (apply has_key_inserted; [now apply in_map|rewrite E; discriminate]).
    + right; left. rewrite LU in N9. simpl in N9. inversion N9. reflexivity.
    + right; right; left. rewrite LU in N9. simpl in N9. inversion N9. reflexivity.
Qed.

(** X5: references to GEO rows.  After a completed invocation on a store in
    which every TWEET row refers to no GEO row or to one that is there, every
    TWEET row still does. *)
Theorem run_keeps_geo_references s db lines total db' p c :
  run s db lines total = Ok (db', p, c) ->
  geo_ref db -> geo_ref db'.
Proof.
  intros H R. apply run_inv in H.
  destruct H as (ub & gb & tb & e & urs & grs & trs & G & Bu & Bg & Bt & -> & _).
  pose proof (stored_links _ _ _ _ _ _ _ _ _ _ _ db G Bu Bg Bt) as L.
  unfold geo_ref in *. simpl.
  destruct (insert_rows_extends 1 (map (stored Tweet) trs) (TWEET db))
    as (extra & -> & _ & I).
  apply Forall_app. split.
  - eapply Forall_impl; [|exact R]. intros t [Ht|Ht]; [now left|right].
    now apply has_key_insert_rows_mono.
  - rewrite Forall_forall in *. intros t It. now apply (L t (I t It)).
Qed.

(** X6: references to USER rows.  After a completed invocation on a store in
    which every TWEET row refers to a USER row that is there, or has a
    user_id that is NULL, "NULL" or "", every TWEET row still does: the
    reference can only dangle for the two texts that [null_checker] turns
    into NULL in USER.id and leaves as they are in TWEET.user_id. *)
Theorem run_keeps_user_references s db lines total db' p c :
  run s db lines total = Ok (db', p, c) ->
  user_ref db -> user_ref db'.
Proof.
  intros H R. apply run_inv in H.
  destruct H as (ub & gb & tb & e & urs & grs & trs & G & Bu & Bg & Bt & -> & _).
  pose proof (stored_links _ _ _ _ _ _ _ _ _ _ _ db G Bu Bg Bt) as L.
  unfold user_ref in *. simpl.
  destruct (insert_rows_extends 1 (map (stored Tweet) trs) (TWEET db))
    as (extra & -> & _ & I).
  apply Forall_app. split.
  - eapply Forall_impl; [|exact R].
    intros t [Ht|[Ht|[Ht|Ht]]]; auto.
    right; right; right. now apply has_key_insert_rows_mono.
  - rewrite Forall_forall in *. intros t It. now apply (L t (I t It)).
Qed.

(** ** The batches of [batch_insert_data_1D] *)

Lemma push_bound b st ut gts tw st' :
  len gts <= 1 ->
  push b st ut gts tw = Ok st' ->
  pending_bound b st -> pending_bound b st'.
Proof.
  unfold push, pending_bound. intros G H (E & Lg & Lt).
  destruct ((len (users_batch st ++ [ut]) >=? b) || (len (tweets_batch st ++ [tw]) >=? b))
    eqn:C.
  - destruct (flush (store st) (users_batch st ++ [ut]) (geo_batch st ++ gts)
                (tweets_batch st ++ [tw])); cbn [bind] in H; [|discriminate].
    inversion H; subst; simpl. unfold len; simpl. lia.
  - inversion H; subst; simpl. apply orb_false_elim in C. destruct C as [_ C].
    rewrite Z.geb_leb in C. apply Z.leb_gt in C.
    rewrite !len_app in *. change (len [ut]) with 1. change (len [tw]) with 1 in *.
    lia.
Qed.

Lemma loop_1D_bound lines total b : forall st st',
  loop_1D lines total b st = Ok st' ->
  pending_bound b st -> pending_bound b st'.
Proof.
  induction lines as [|l lines IH]; intros st st' H I.
  - simpl in H. now inversion H; subst.
  - cbn [loop_1D] in H. destruct (tweets_processed st >=? total).
    + now inversion H; subst.
    + destruct (json_loads l) as [v|].
      * rewrite body_1D_push in H.
        destruct (tuples VNone v) as [[[ut gts] tw]|] eqn:T; cbn [bind] in H;
          [|discriminate].
        destruct (push b st ut gts tw) as [st1|] eqn:P; cbn [bind] in H;
          [|discriminate].
        apply (IH st1 st' H). eapply push_bound; eauto.
        exact (tuples_of_one_geo (Batch_1D b) v ut gts tw T).
      * apply (IH _ _ H). exact I.
Qed.

(** X7: the batches stay small.  After any number of lines the three batches
    that wait for a flush hold fewer tuples than [batch_size] each, as many
    USER as TWEET tuples and no more GEO tuples than those. *)
Theorem batches_stay_below_batch_size db lines total b st :
  loop_1D lines total b (mkst db [] [] [] 0 0) = Ok st ->
  pending_bound b st.
Proof.
  intros H. apply (loop_1D_bound _ _ _ _ _ H).
  unfold pending_bound, len; simpl. lia.
Qed.

(** ** The file written by [save_first_n_tweets_to_file_1A] *)

Lemma save_loop_firstn n response : forall line_count,
  save_loop n response line_count = firstn (Z.to_nat (n - line_count)) response.
Proof.
  induction response as [|l rest IH]; intros c; simpl.
  - now rewrite firstn_nil.
  - destruct (c <? n) eqn:E.
    + apply Z.ltb_lt in E. rewrite IH.
      replace (Z.to_nat (n - c)) with (S (Z.to_nat (n - (c + 1)))) by lia.
      reflexivity.
    + apply Z.ltb_ge in E. now replace (Z.to_nat (n - c)) with 0%nat by lia.
Qed.

(** X8: the saved file.  The file holds the first [n] lines of the
    response, in order: all of them when the response is shorter, none when
    [n] is not positive. *)
Theorem save_first_n_tweets_to_file_1A_firstn n response :
  save_first_n_tweets_to_file_1A n response = firstn (Z.to_nat n) response /\
  len (save_first_n_tweets_to_file_1A n response) = Z.min (Z.max n 0) (len response).
Proof.
  unfold save_first_n_tweets_to_file_1A. rewrite save_loop_firstn, Z.sub_0_r.
  split; [reflexivity|]. unfold len. rewrite length_firstn. lia.
Qed.

(** A source with no more lines than the target is read to its end. *)
Lemma gather_whole f lines : forall p e total,
  Forall (fun v => exists t, f v = Ok t) (records lines) ->
  lines = [] \/ p + len lines <= total ->
  exists ts,
    Forall2 (fun v t => f v = Ok t) (records lines) ts /\
    gather f lines total p e =
    Ok (map (fun t => fst (fst t)) ts, List.concat (map (fun t => snd (fst t)) ts),
        map snd ts, p + len (records lines), e + len (undecodable lines)).
Proof.
  induction lines as [|l lines IH]; intros p e total F H.
  - exists []. split; [constructor|]. simpl.
    change (len (records [])) with 0. change (len (undecodable [])) with 0.
    now rewrite !Z.add_0_r.
  - destruct H as [H|H]; [discriminate|]. rewrite len_cons in H.
    pose proof (len_nonneg lines) as N.
    cbn [gather]. destruct (p >=? total) eqn:C; [apply Z.geb_le in C; lia|].
    destruct l as [| |v]; cbn [json_loads].
    + change (records (Blank :: lines)) with (records lines) in *.
      destruct (IH p (e + 1) total F) as (ts & F2 & G); [right; lia|].
      exists ts. split; [exact F2|]. rewrite G.
      change (undecodable (Blank :: lines)) with (Blank :: undecodable lines).
      rewrite len_cons.
      now replace (e + (1 + len (undecodable lines)))
        with (e + 1 + len (undecodable lines)) by lia.
    + change (records (Garbage :: lines)) with (records lines) in *.
      destruct (IH p (e + 1) total F) as (ts & F2 & G); [right; lia|].
      exists ts. split; [exact F2|]. rewrite G.
      change (undecodable (Garbage :: lines)) with (Garbage :: undecodable lines).
      rewrite len_cons.
      now replace (e + (1 + len (undecodable lines)))
        with (e + 1 + len (undecodable lines)) by lia.
    + change (records (Json v :: lines)) with (v :: records lines) in *.
      apply Forall_cons_iff in F. destruct F as [[[[ut gts] tw] Fv] F'].
      destruct (IH (p + 1) e total F') as (ts & F2 & G); [right; lia|].
      exists ((ut, gts, tw) :: ts). split; [now constructor|].
      rewrite Fv. cbn [bind]. rewrite G. rewrite len_cons.
      change (undecodable (Json v :: lines)) with (undecodable lines).
      now replace (p + (1 + len (records lines)))
        with (p + 1 + len (records lines)) by lia.
Qed.

Lemma run_whole s db lines total :
  Forall (ingestible s) (records lines) ->
  lines = [] \/ len lines <= total ->
  exists db',
    run s db lines total =
    Ok (db', len (records lines), counter s (len (undecodable lines))).
Proof.
  intros I H.
  destruct (gather_whole (tuples_of s) lines 0 0 total) as (ts & F2 & G).
  { eapply Forall_impl; [|exact I]. intros v Iv.
    destruct (ingestible_inv _ _ Iv) as (ut & gts & tw & _ & _ & _ & T & _).
    now exists (ut, gts, tw). }
  { destruct H as [H|H]; [now left|right; lia]. }
  destruct (gathered_rows s _ _ F2 I) as (urs & grs & trs & Bu & Bg & Bt & _).
  exists (store_rows db urs grs trs).
  apply content_some. rewrite run_gather, G. cbn [bind].
  rewrite content_bind, content_flush, Bu, Bg, Bt. reflexivity.
Qed.

(** X9: reading the saved file.  A strategy run with target [n] on the file
    that [save_first_n_tweets_to_file_1A] wrote for the same [n] reads the
    file to its end when it can ingest its records: it counts every record
    and, in the file strategies, every line of the file that [json.loads]
    rejects, the blank ones among them, and never looks for the records that
    these lines displaced. *)
Theorem saved_file_is_read_to_its_end s db n response :
  let file := save_first_n_tweets_to_file_1A n response in
  Forall (ingestible s) (records file) ->
  exists db',
    run s db file n = Ok (db', len (records file), counter s (len (undecodable file))).
Proof.
  intros file I. apply run_whole; [exact I|].
  destruct (save_first_n_tweets_to_file_1A_firstn n response) as (_ & L).
  fold file in L. destruct file as [|l file'] eqn:E; [now left|right].
  rewrite L. rewrite len_cons in L. pose proof (len_nonneg file'). lia.
Qed.

(** ** Agreement of the three strategies *)

Lemma complete_record_tuples d v :
  complete_record v = true -> tuples_1B v = tuples d v.
Proof.
  unfold complete_record, has_keys, required_tweet_keys, user_columns, field, field_or.
  destruct v as [| | | | | |items]; try discriminate. simpl.
  destruct (lookup "created_at" items) as [a|] eqn:E1; [|discriminate].
  destruct (lookup "id_str" items) as [b|] eqn:E2; [|discriminate].
  destruct (lookup "text" items) as [c|] eqn:E3; [|discriminate].
  destruct (lookup "source" items) as [e|] eqn:E4; [|discriminate].
  destruct (lookup "retweet_count" items) as [h|] eqn:E5; [|discriminate].
  destruct (lookup "contributors" items) as [k|] eqn:E6; [|discriminate].
  destruct (lookup "user" items) as [user|] eqn:E7; [|discriminate].
  destruct user as [| | | | | |uitems]; try discriminate. simpl.
  destruct (lookup "id_str" uitems) as [u1|] eqn:U1; [|discriminate].
  destruct (lookup "name" uitems) as [u2|] eqn:U2; [|discriminate].
  destruct (lookup "screen_name" uitems) as [u3|] eqn:U3; [|discriminate].
  destruct (lookup "description" uitems) as [u4|] eqn:U4; [|discriminate].
  destruct (lookup "friends_count" uitems) as [u5|] eqn:U5; [|discriminate].
  simpl. intros G.
  unfold tuples_1B, tuples, user_tuple_1B, user_tuple, tweet_tuple_1B, tweet_tuple,
    get, subscript.
  rewrite E7. cbn [bind]. rewrite U1, U2, U3, U4, U5. cbn [bind].
  destruct (lookup "geo" items) as [geo|] eqn:E8; cbn [bind].
  - unfold numeric_pair_or_absent in G. unfold geo_test_1B.
    destruct (truthy geo) eqn:T.
    + simpl in G.
      destruct geo as [| | | | | |gitems]; try discriminate.
      destruct (lookup "coordinates" gitems) as [coords|] eqn:C; [|discriminate].
      destruct coords as [| | | | |[|x [|y [|z l]]]|]; try discriminate.
      unfold contains, subscript. rewrite C. cbn [bind iterate forallb].
      apply andb_prop in G. destruct G as [Gx Gy]. rewrite Gx, Gy. cbn [andb bind].
      unfold geo_tuple, subscript. rewrite C. cbn [bind].
      unfold unpack2. cbn [iterate bind].
      rewrite ?E1, ?E2, ?E3, ?E4, ?E5, ?E6, ?U1. cbn [bind].
      destruct (lookup "in_reply_to_user_id_str" items),
        (lookup "in_reply_to_screen_name" items),
        (lookup "in_reply_to_status_id_str" items); reflexivity.
    + cbn [bind]. rewrite ?E1, ?E2, ?E3, ?E4, ?E5, ?E6, ?U1. cbn [bind].
      destruct (lookup "in_reply_to_user_id_str" items),
        (lookup "in_reply_to_screen_name" items),
        (lookup "in_reply_to_status_id_str" items); reflexivity.
  - unfold geo_test_1B. cbn [truthy bind].
    rewrite ?E1, ?E2, ?E3, ?E4, ?E5, ?E6, ?U1. cbn [bind].
    destruct (lookup "in_reply_to_user_id_str" items),
      (lookup "in_reply_to_screen_name" items),
      (lookup "in_reply_to_status_id_str" items); reflexivity.
Qed.

Lemma complete_record_tuples_of s1 s2 v :
  complete_record v = true -> tuples_of s1 v = tuples_of s2 v.
Proof.
  intros H. destruct s1, s2; simpl; try reflexivity;
    rewrite <- ?(complete_record_tuples (VList []) v H),
            <- ?(complete_record_tuples VNone v H); reflexivity.
Qed.

Lemma in_records v lines : In (Json v) lines -> In v (records lines).
Proof.
  induction lines as [|l lines IH]; intros H; [contradiction|].
  destruct H as [->|H]; [now left|].
  unfold records in *. simpl. apply in_or_app. right. now apply IH.
Qed.

(** X10: the strategies agree.  On a source whose records all have the keys
    the file strategies read by subscript, a "contributors" key and a "geo"
    that is absent or an object with two numeric coordinates, the network
    strategy, the single-row file strategy and the batched strategy with any
    batch size end alike: all with an exception, or all with the same store
    and the same success counter. *)
Theorem strategies_agree_on_complete_records s1 s2 db lines total :
  Forall (fun v => complete_record v = true) (records lines) ->
  outcome s1 db lines total = outcome s2 db lines total.
Proof.
  intros H. unfold outcome. rewrite !run_gather.
  rewrite (gather_ext (tuples_of s1) (tuples_of s2)).
  - destruct (gather (tuples_of s2) lines total 0 0) as [[[[[ub gb] tb] p] e]|];
      [|reflexivity].
    cbn [bind]. rewrite !content_bind.
    now destruct (content (flush db ub gb tb)).
  - intros v Hv. apply complete_record_tuples_of.
    rewrite Forall_forall in H. apply H. now apply in_records.
Qed.

(** ** [null_checker] again *)

(** X11: canonical output.  Applying [null_checker] twice is applying it
    once, and its result is never the text "NULL" nor the empty text. *)
Theorem null_checker_idempotent (v : value) :
  null_checker (null_checker v) = null_checker v /\
  null_checker v <> VStr "NULL" /\ null_checker v <> VStr "".
Proof.
  unfold null_checker.
  destruct v as [|b|z|r|s|l|d]; simpl;
    try (split; [reflexivity|split; discriminate]).
  destruct (String.eqb s "NULL") eqn:E1; simpl;
    [split; [reflexivity|split; discriminate]|].
  destruct (String.eqb s "") eqn:E2; simpl;
    [split; [reflexivity|split; discriminate]|].
  rewrite E1, E2. simpl.
  split; [reflexivity|split]; intros H; injection H as H; subst s.
  - discriminate E1.
  - discriminate E2.
Qed.

(** ** [execute_and_report_queries] *)

Lemma commit_test_true upper query : truthy (commit_test upper query) = true.
Proof. reflexivity. Qed.

Lemma report_loop_spec {S : Type} execute_sql commit upper queries : forall conn : S,
  report_loop execute_sql commit upper queries conn =
  (conn' <- run_all execute_sql commit queries conn ;;
   Ok (conn', flat_map (fun q => [Completed (fst q); Runtime (fst q)]) queries)).
Proof.
  induction queries as [|[description query] rest IH]; intros conn; [reflexivity|].
  cbn [report_loop run_all].
  destruct (execute_sql query conn) as [[conn1 cursor]|]; cbn [bind]; [|reflexivity].
  rewrite commit_test_true. rewrite IH.
  destruct (run_all execute_sql commit rest (commit conn1)); reflexivity.
Qed.

(** X12: the test on the query text.  Whatever the queries are, and whatever
    engine executes them, the function commits after every query, prints a
    completion line for it, and never fetches nor prints a row of a result
    set: the condition of its [if] is the text "CREATE TABLE", which is
    true. *)
Theorem execute_and_report_queries_always_commits {S : Type}
  (execute_sql : string -> S -> result (S * option (list row)))
  (commit : S -> S) (upper : string -> string)
  (queries : list (string * string)) (conn : S) :
  execute_and_report_queries execute_sql commit upper queries conn =
  (conn' <- run_all execute_sql commit queries conn ;;
   Ok (commit conn', completed_report queries)).
Proof.
  unfold execute_and_report_queries, completed_report.
  rewrite report_loop_spec.
  destruct (run_all execute_sql commit queries conn); reflexivity.
Qed.

(** ** [execute_python_iterations_2C] *)

Lemma add_point_points key_eqb u lo la data :
  points (add_point key_eqb u lo la data) = S (points data).
Proof.
  induction data as [|[k [los las]] rest IH]; [reflexivity|].
  unfold points in *. cbn [add_point]. destruct (key_eqb k u).
  - cbn [fold_right fst snd]. rewrite length_app. simpl. lia.
  - cbn [fold_right fst snd]. rewrite IH. lia.
Qed.

Lemma add_point_paired key_eqb u lo la data :
  paired data -> paired (add_point key_eqb u lo la data).
Proof.
  unfold paired.
  induction data as [|[k [los las]] rest IH]; intros P.
  - repeat constructor.
  - apply Forall_cons_iff in P. destruct P as [P1 P2].
    cbn [add_point]. destruct (key_eqb k u); constructor; auto.
    cbn [fst snd] in *. rewrite !length_app, P1. reflexivity.
Qed.

Lemma body_2C_points key_eqb tweet data data' :
  body_2C key_eqb tweet data = Ok data' ->
  points data' =
    (points data + (if with_coordinates (Json tweet) then 1 else 0))%nat /\
  (paired data -> paired data').
Proof.
  unfold body_2C, with_coordinates. cbn [json_loads].
  destruct (get tweet "geo" VNone) as [geo|]; cbn [bind]; [|discriminate].
  destruct (geo_test_1B geo) as [[|]|]; cbn [bind]; [| |discriminate].
  - destruct (subscript tweet "user") as [user|]; cbn [bind]; [|discriminate].
    destruct (subscript user "id_str") as [user_id|]; cbn [bind]; [|discriminate].
    destruct (subscript geo "coordinates") as [coords|]; cbn [bind]; [|discriminate].
    destruct (unpack2 coords) as [[lo la]|]; cbn [bind]; [|discriminate].
    destruct (hashable user_id); [|discriminate].
    intros H. injection H as H. subst data'. split.
    + rewrite add_point_points. lia.
    + apply add_point_paired.
  - intros H. injection H as H. subst data'. split; [lia|auto].
Qed.

Lemma pass_2C_points key_eqb lines : forall data data',
  pass_2C key_eqb lines data = Ok data' ->
  points data' = (points data + List.length (filter with_coordinates lines))%nat /\
  (paired data -> paired data').
Proof.
  induction lines as [|l rest IH]; intros data data' H.
  - injection H as H. subst. split; [simpl; lia|auto].
  - cbn [pass_2C] in H. cbn [filter].
    destruct l as [| |tweet]; cbn [json_loads] in H;
      try (apply IH in H; exact H).
    destruct (body_2C key_eqb tweet data) as [data1|] eqn:B; cbn [bind] in H;
      [|discriminate].
    apply body_2C_points in B. destruct B as [B1 B2].
    apply IH in H. destruct H as [H1 H2].
    split; [|auto].
    rewrite H1, B1. destruct (with_coordinates (Json tweet)); simpl; lia.
Qed.

(** X13: points accumulate over the iterations.  [user_geo_data] is emptied
    once per iteration count and not once per reading of the file: when the
    [k] readings of one count complete, it holds [k] times the number of
    lines whose record passes the test on its [geo], and as many latitudes
    as longitudes under every key. *)
Theorem passes_2C_accumulate key_eqb (k : nat) lines data :
  passes_2C key_eqb k lines [] = Ok data ->
  points data = (k * List.length (filter with_coordinates lines))%nat /\
  paired data.
Proof.
  assert (G : forall k start data,
             passes_2C key_eqb k lines start = Ok data ->
             points data =
               (points start + k * List.length (filter with_coordinates lines))%nat /\
             (paired start -> paired data)).
  { clear k data. induction k as [|k IH]; intros start data H.
    - injection H as H. subst. split; [lia|auto].
    - cbn [passes_2C] in H.
      destruct (pass_2C key_eqb lines start) as [data1|] eqn:P; cbn [bind] in H;
        [|discriminate].
      apply pass_2C_points in P. destruct P as [P1 P2].
      apply IH in H. destruct H as [H1 H2].
      split; [rewrite H1, P1; lia|auto]. }
  intros H. apply G in H. destruct H as [H1 H2].
  split; [exact H1|apply H2; constructor].
Qed.

Lemma passes_2C_accumulate_post_1 :
  exists data,
    passes_2C text_keys 3 [Json post_1; Garbage; Json (without "geo" post_2)] [] = Ok data /\
    points data = 3%nat /\ paired data.
Proof.
  eexists. split; [reflexivity|].
  apply (passes_2C_accumulate text_keys 3
           [Json post_1; Garbage; Json (without "geo" post_2)]).
  reflexivity.
Defined.

Lemma readable_passes key_eqb lines :
  readable key_eqb lines ->
  forall k data, exists data', passes_2C key_eqb k lines data = Ok data'.
Proof.
  intros R. induction k as [|k IH]; intros data.
  - eexists. reflexivity.
  - cbn [passes_2C]. destruct (R data) as [data1 E]. rewrite E. cbn [bind].
    apply IH.
Qed.

Lemma dict_set_keys {V : Type} (k : Z) (v : V) d k' :
  In k' (map fst (dict_set k v d)) <-> k' = k \/ In k' (map fst d).
Proof.
  induction d as [|[k0 v0] rest IH]; simpl.
  - intuition.
  - destruct (k0 =? k) eqn:E; simpl.
    + apply Z.eqb_eq in E. subst. intuition.
    + rewrite IH. intuition.
Qed.

Lemma dict_set_NoDup {V : Type} (k : Z) (v : V) d :
  NoDup (map fst d) -> NoDup (map fst (dict_set k v d)).
Proof.
  induction d as [|[k0 v0] rest IH]; simpl; intros N.
  - constructor; [intros []|constructor].
  - apply NoDup_cons_iff in N. destruct N as [N1 N2].
    destruct (k0 =? k) eqn:E; simpl.
    + apply Z.eqb_eq in E. subst. constructor; assumption.
    + apply Z.eqb_neq in E. constructor; [|auto].
      rewrite dict_set_keys. intros [F|F]; [congruence|contradiction].
Qed.

Lemma measure_2C_counts key_eqb lines :
  readable key_eqb lines ->
  forall pending results,
    NoDup (map fst results) ->
    (In 0 pending ->
     measure_2C key_eqb lines pending results = Raise ZeroDivisionError) /\
    (~ In 0 pending ->
     exists final,
       measure_2C key_eqb lines pending results = Ok final /\
       NoDup (map fst final) /\
       forall k, In k (map fst final) <-> In k pending \/ In k (map fst results)).
Proof.
  intros R. induction pending as [|count rest IH]; intros results N.
  - split; [intros []|]. intros _. exists results. simpl. intuition.
  - cbn [measure_2C].
    destruct (readable_passes key_eqb lines R (Z.to_nat count) []) as [data E].
    rewrite E. cbn [bind].
    destruct (IH (dict_set count (Z.to_nat count) results)
                (dict_set_NoDup _ _ _ N)) as [IH1 IH2].
    destruct (count =? 0) eqn:C.
    + apply Z.eqb_eq in C. subst. split; [reflexivity|].
      intros F. exfalso. apply F. now left.
    + apply Z.eqb_neq in C. split.
      * intros [F|F]; [congruence|auto].
      * intros F. destruct IH2 as [final [F1 [F2 F3]]].
        { intros G. apply F. now right. }
        exists final. split; [exact F1|]. split; [exact F2|].
        intros k. rewrite F3, dict_set_keys. simpl. intuition.
Qed.

(** X14: the iteration counts.  When a reading of the file raises nothing, a
    call whose counts hold a 0 raises [ZeroDivisionError] at the report of
    the average, and a call whose counts hold no 0 returns a mapping whose
    keys are the counts, each once; a negative count reads nothing and is a
    key as well. *)
Theorem execute_python_iterations_2C_counts key_eqb lines iteration_counts :
  readable key_eqb lines ->
  (In 0 iteration_counts ->
   execute_python_iterations_2C key_eqb lines iteration_counts =
     Raise ZeroDivisionError) /\
  (~ In 0 iteration_counts ->
   exists runtime_results,
     execute_python_iterations_2C key_eqb lines iteration_counts =
       Ok runtime_results /\
     NoDup (map fst runtime_results) /\
     forall k, In k (map fst runtime_results) <-> In k iteration_counts).
Proof.
  intros R. unfold execute_python_iterations_2C.
  destruct (measure_2C_counts key_eqb lines R iteration_counts [])
    as [M1 M2]; [constructor|].
  split; [exact M1|].
  intros F. destruct (M2 F) as [final [F1 [F2 F3]]].
  exists final. split; [exact F1|]. split; [exact F2|].
  intros k. rewrite F3. simpl. intuition.
Qed.

Lemma readable_post_1 : readable text_keys [Json post_1; Blank; Garbage].
Proof. intros data. eexists. reflexivity. Qed.

Lemma execute_python_iterations_2C_counts_5_0 :
  readable text_keys [Json post_1; Blank; Garbage] /\
  execute_python_iterations_2C text_keys [Json post_1; Blank; Garbage] [5; 0; 20] =
    Raise ZeroDivisionError.
Proof.
  split; [exact readable_post_1|].
  apply (execute_python_iterations_2C_counts text_keys
           [Json post_1; Blank; Garbage] [5; 0; 20] readable_post_1).
  right. now left.
Defined.

(** ** The joined table and [export_tables_to_json_3B] *)

Lemma sqlval_eqb_sym a b : sqlval_eqb a b = sqlval_eqb b a.
Proof.
  destruct a, b; simpl; try reflexivity;
    first [apply Z.eqb_sym | apply String.eqb_sym].
Qed.

Lemma sql_eq_key k x : k <> SNull -> sql_eq k x = sqlval_eqb x k.
Proof.
  intros N. rewrite sqlval_eqb_sym.
  destruct k; [congruence| | |]; destruct x; reflexivity.
Qed.

Lemma matches_at_most_one pk t k :
  unique_keys pk t ->
  (List.length (filter (fun r => sql_eq k (nth pk r SNull)) t) <= 1)%nat.
Proof.
  intros U. destruct k as [|z|r|x].
  - replace (filter (fun r => sql_eq SNull (nth pk r SNull)) t) with (@nil row);
      [simpl; lia|].
    clear U. induction t as [|r t IH]; [reflexivity|exact IH].
  - rewrite (filter_ext _ (fun r => sqlval_eqb (key pk r) (SInt z)));
      [apply U; discriminate|].
    intros r. apply sql_eq_key. discriminate.
  - rewrite (filter_ext _ (fun r0 => sqlval_eqb (key pk r0) (SReal r)));
      [apply U; discriminate|].
    intros r0. apply sql_eq_key. discriminate.
  - rewrite (filter_ext _ (fun r => sqlval_eqb (key pk r) (SText x)));
      [apply U; discriminate|].
    intros r. apply sql_eq_key. discriminate.
Qed.

Lemma find_filter {A : Type} (f : A -> bool) l :
  find f l = hd_error (filter f l).
Proof.
  induction l as [|a l IH]; [reflexivity|]. simpl. destruct (f a); auto.
Qed.

Lemma left_join_unique on width left right :
  (forall l, (List.length (filter (on l) right) <= 1)%nat) ->
  left_join on width left right =
  map (fun l => (l ++ match find (on l) right with
                      | Some r => r
                      | None => repeat SNull width
                      end)%list)
      left.
Proof.
  intros U. unfold left_join.
  induction left as [|l rest IH]; [reflexivity|].
  cbn [flat_map]. rewrite IH. cbn [map]. rewrite find_filter.
  specialize (U l).
  destruct (filter (on l) right) as [|r [|r' more]]; simpl in *;
    [reflexivity|reflexivity|lia].
Qed.

Lemma all_tweets_joined_rows db :
  well_keyed db ->
  left_join (fun j g => sql_eq (nth 10 j SNull) (nth 0 g SNull)) 4
    (left_join (fun t u => sql_eq (nth 9 t SNull) (nth 0 u SNull)) 5
       (TWEET db) (USER db))
    (GEO db) =
  map (fun t =>
         let j := (t ++ matching 0 5 (nth 9 t SNull) (USER db))%list in
         (j ++ matching 0 4 (nth 10 j SNull) (GEO db))%list)
      (TWEET db).
Proof.
  intros (KU & KG & _).
  rewrite (left_join_unique _ 5 (TWEET db) (USER db)).
  2:{ intros l. apply (matches_at_most_one 0 (USER db) (nth 9 l SNull) KU). }
  rewrite left_join_unique.
  2:{ intros l. apply (matches_at_most_one 0 (GEO db) (nth 10 l SNull) KG). }
  rewrite map_map. reflexivity.
Qed.

(** X15: the joined table.  When no two rows of USER and no two rows of GEO
    share a key, the table built by TWEET LEFT JOIN USER LEFT JOIN GEO has
    one row per row of TWEET, whether or not the user and the place the row
    refers to are stored. *)
Theorem joined_table_has_one_row_per_tweet (db : database) :
  well_keyed db ->
  List.length (create_joined_table None db) = List.length (TWEET db).
Proof.
  intros K. unfold create_joined_table, all_tweets_joined.
  rewrite (all_tweets_joined_rows db K). now rewrite !length_map.
Qed.

Lemma well_keyed_store_after_post_1 : well_keyed store_after_post_1.
Proof.
  repeat split; intros k _; unfold key_count; simpl;
    match goal with |- context [if ?c then _ else _] => destruct c end;
    simpl; lia.
Qed.

Lemma joined_table_has_one_row_per_tweet_post_1 :
  List.length (create_joined_table None store_after_post_1) = 1%nat.
Proof.
  apply (joined_table_has_one_row_per_tweet store_after_post_1).
  exact well_keyed_store_after_post_1.
Defined.

Lemma matching_length pk width k t :
  Forall (fun r => List.length r = width) t ->
  List.length (matching pk width k t) = width.
Proof.
  intros F. unfold matching.
  destruct (find (fun r => sql_eq k (nth pk r SNull)) t) as [r|] eqn:E.
  - apply find_some in E. destruct E as [E _].
    rewrite Forall_forall in F. now apply F.
  - apply repeat_length.
Qed.

Ltac row_of_length H :=
  repeat match type of H with
         | List.length ?r = _ =>
             destruct r as [|? r]; [discriminate H|]; simpl in H;
             apply Nat.succ_inj in H
         | List.length ?r = _ => destruct r; [clear H|discriminate H]
         end.

(** X16: the columns the export reads.  On a store whose USER and GEO keys
    are unique, the joined table being built anew, the second list written
    by [export_tables_to_json_3B] has one entry per TWEET row, in order:
    its indices 11 to 14 are the name, the screen name, the description and
    the friends count of the USER row with the id the TWEET row refers to,
    its indices 15 to 17 the type, the longitude and the latitude of the GEO
    row it refers to, and NULL where there is no such row. *)
Theorem export_reads_the_joined_columns (db : database) :
  well_keyed db ->
  well_shaped db ->
  snd (export_tables_to_json_3B (TWEET db) (create_joined_table None db)) =
  map (joined_entry db) (TWEET db).
Proof.
  intros K (SU & SG & ST).
  unfold export_tables_to_json_3B, create_joined_table, all_tweets_joined.
  cbn [snd]. rewrite (all_tweets_joined_rows db K). rewrite !map_map.
  apply map_ext_in. intros t I.
  rewrite Forall_forall in ST. specialize (ST t I).
  unfold joined_entry. cbn [primary_key].
  assert (E10 : forall u, nth 10 (t ++ u)%list SNull = nth 10 t SNull).
  { intros u. apply app_nth1. lia. }
  cbv zeta. rewrite E10.
  pose proof (matching_length 0 5 (nth 9 t SNull) (USER db) SU) as LU.
  pose proof (matching_length 0 4 (nth 10 t SNull) (GEO db) SG) as LG.
  remember (matching 0 5 (nth 9 t SNull) (USER db)) as u eqn:EU.
  remember (matching 0 4 (nth 10 t SNull) (GEO db)) as g eqn:EG.
  clear EU EG E10 I.
  row_of_length ST. row_of_length LU. row_of_length LG.
  reflexivity.
Qed.

Lemma export_reads_the_joined_columns_post_1 :
  snd (export_tables_to_json_3B (TWEET store_after_post_1)
         (create_joined_table None store_after_post_1)) =
  [[("created_at", SText "Mon Apr 01 10:00:00 +0000 2013");
    ("user_name", SText "Ann"); ("screen_name", SText "ann");
    ("user_description", SNull); ("friends_count", SInt 7);
    ("geo_type", SText "Point"); ("longitude", SReal "10.0");
    ("latitude", SReal "20.0")]].
Proof.
  apply (export_reads_the_joined_columns store_after_post_1).
  - exact well_keyed_store_after_post_1.
  - repeat constructor.
Defined.

End Engine.

(** * Examples

    The runs below are made with the engine [repr_text]; their records bind
    no float to a VARCHAR column. *)

#[local] Existing Instance repr_text.

Open Scope list_scope.

(** The keys as the store keeps them: the post ids "1" and 1 are one text,
    and the second post is ignored; a post id that is not a number is bound
    as NULL, and the post is stored each time it is read. *)
Lemma keys_as_the_store_keeps_them :
  let one := post (VInt 1) (actor (VStr "42")) here in
  let nan := post (VFloat "nan") (actor (VStr "42")) here in
  (exists db,
     populate_tables_txt_1C create_tables [Json post_1; Json one] 2 = Ok (db, 2, 0) /\
     map (key (primary_key Tweet)) (TWEET db) = [SText "1"]) /\
  (exists db,
     populate_tables_txt_1C create_tables [Json nan; Json nan] 2 = Ok (db, 2, 0) /\
     map (key (primary_key Tweet)) (TWEET db) = [SNull; SNull]).
Proof.
  split; eexists; (split; [vm_compute; reflexivity|]); reflexivity.
Qed.

(** C7 fails as stated: a user id "NULL" and a post id "" are stored as NULL
    in the primary-key columns, while the TWEET row keeps the user id as
    found. *)
Lemma primary_keys_are_null_checked :
  exists db,
    populate_tables_txt_1C create_tables
      [Json (post (VStr "") (actor (VStr "NULL")) VNone)] 1 = Ok (db, 1, 0) /\
    map (key (primary_key User)) (USER db) = [SNull] /\
    map (key (primary_key Tweet)) (TWEET db) = [SNull] /\
    map (fun r => nth 9 r SNull) (TWEET db) = [SText "NULL"].
Proof.
  eexists. split; [vm_compute; reflexivity|]. repeat split; reflexivity.
Qed.

Lemma malformed_record_aborts_after_a_post :
  exists ex,
    populate_tables_txt_1C create_tables
      ([Json post_1; Garbage] ++ Json (without "created_at" post_2) :: [Json post_2]) 5
    = Raise ex.
Proof.
  refine (proj1 (malformed_record_aborts create_tables [Json post_1; Garbage]
                   (without "created_at" post_2) [Json post_2] 5 _) _ 1 1 _ _).
  - apply (no_tweet_key _ "created_at"); [now left | reflexivity].
  - vm_compute. reflexivity.
  - lia.
Defined.

(** C10 fails as stated: a record whose "geo" is the empty object has no
    "coordinates" key and is ingested by both file strategies. *)
Lemma empty_geo_object_is_ingested :
  let r := post (VStr "1") (actor (VStr "42")) (VDict []) in
  field (field r "geo") "coordinates" = VNone /\
  (exists db, populate_tables_txt_1C create_tables [Json r] 1 = Ok (db, 1, 0)) /\
  (exists db, batch_insert_data_1D create_tables [Json r] 1 1 = Ok (db, 1, 0)).
Proof.
  split; [reflexivity|]. split; eexists; vm_compute; reflexivity.
Qed.

Lemma record_without_post_id_aborts_the_file_strategy :
  exists ex,
    populate_tables_txt_1C create_tables
      ([Json post_1] ++ Json (without "id_str" post_2) :: [Json post_2]) 3
    = Raise ex.
Proof.
  refine (proj1 (record_without_post_id create_tables [Json post_1]
                   (without "id_str" post_2) [Json post_2] 3 _) _ 1 0 _ _).
  - reflexivity.
  - vm_compute. reflexivity.
  - lia.
Defined.

(** C6 fails as stated: after a record without "id_str" the file strategies
    do not go on to the next record, and the network strategy stores the
    record and counts it. *)
Lemma record_without_post_id_is_not_skipped :
  let lines := [Json (without "id_str" post_1); Json post_2] in
  populate_tables_txt_1C create_tables lines 2 = Raise KeyError /\
  batch_insert_data_1D create_tables lines 2 1 = Raise KeyError /\
  exists db,
    populate_tables_web_1B create_tables lines 2 = Ok (db, 2) /\
    map (key (primary_key Tweet)) (TWEET db) = [SNull; SText "2"].
Proof.
  split; [reflexivity|]. split; [reflexivity|].
  eexists. split; [vm_compute; reflexivity|reflexivity].
Qed.

Lemma second_ingestion_of_post_1 :
  ingest Txt_1C create_tables [Json post_1; Json post_1] 2 = Some store_after_post_1.
Proof.
  refine (proj1 (proj2 (proj2 (proj2
            (second_ingestion_changes_nothing Txt_1C (Batch_1D 1) create_tables
               store_after_post_1 store_after_post_1 post_1 (SText "42") (SText "1")
               _ _ _ _ _ _))))).
  - reflexivity.
  - discriminate.
  - reflexivity.
  - discriminate.
  - reflexivity.
  - reflexivity.
Defined.

(** C2 fails as stated: a record without "text" that the network strategy has
    ingested makes the file strategy end with an exception, and a record
    whose post id is the empty string gets a second TWEET row when it is
    ingested again. *)
Lemma second_ingestion_can_fail_or_duplicate :
  let r := without "text" post_1 in
  let r0 := post (VStr "") (actor (VStr "42")) VNone in
  (exists db1,
     ingest Web_1B create_tables [Json r] 1 = Some db1 /\
     populate_tables_txt_1C db1 [Json r] 1 = Raise KeyError) /\
  (exists db1 db2,
     ingest Txt_1C create_tables [Json r0] 1 = Some db1 /\
     ingest Txt_1C db1 [Json r0] 1 = Some db2 /\
     List.length (TWEET db1) = 1%nat /\ List.length (TWEET db2) = 2%nat).
Proof.
  split.
  - eexists. split; [vm_compute; reflexivity|reflexivity].
  - do 2 eexists. split; [vm_compute; reflexivity|].
    split; [vm_compute; reflexivity|]. split; reflexivity.
Qed.

Lemma malformed_lines_are_counted_in_batches :
  exists db',
    run (Batch_1D 1) create_tables
      ([Json post_1; Garbage; Blank; Json post_2] ++ [Garbage; Json post_1]) 2
    = Ok (db', 2, Some 2) /\
    len (TWEET db') = 0 + 2.
Proof.
  refine (malformed_lines_are_counted (Batch_1D 1) create_tables
            [Json post_1; Garbage; Blank; Json post_2] [Garbage; Json post_1]
            [SText "1"; SText "2"] _ _ _ _ _).
  - repeat constructor; vm_compute; discriminate.
  - reflexivity.
  - reflexivity.
  - repeat constructor; simpl; intuition discriminate.
  - repeat constructor; discriminate.
Defined.

(** C5 fails as stated: two well-formed lines that carry the same post give
    one TWEET row for a target of two, and the network strategy returns the
    same store and counter with or without an undecodable line. *)
Lemma repeated_post_and_uncounted_line :
  (exists db,
     populate_tables_txt_1C create_tables [Json post_1; Garbage; Json post_1] 2
     = Ok (db, 2, 1) /\
     List.length (TWEET db) = 1%nat) /\
  populate_tables_web_1B create_tables [Garbage; Json post_1] 1 =
  populate_tables_web_1B create_tables [Json post_1] 1.
Proof.
  split; [|reflexivity].
  eexists. split; [vm_compute; reflexivity|reflexivity].
Qed.

Lemma run_appends_only_post_1 :
  exists new_users new_geos new_tweets,
    USER store_after_post_1 = USER create_tables ++ new_users /\
    GEO store_after_post_1 = GEO create_tables ++ new_geos /\
    TWEET store_after_post_1 = TWEET create_tables ++ new_tweets /\
    len new_users <= 1 /\ len new_geos <= 1 /\ len new_tweets <= 1.
Proof.
  apply (run_appends_only Txt_1C create_tables [Json post_1] 1 store_after_post_1 1
           (Some 0)).
  reflexivity.
Defined.

Lemma run_counters_two_posts :
  0 <= 2 <= Z.max 0 3 /\
  2 <= len (records [Json post_1; Garbage; Json post_2]) /\
  (file_based (Batch_1D 1) = true /\
   0 <= 1 <= len (undecodable [Json post_1; Garbage; Json post_2])).
Proof.
  refine (run_counters (Batch_1D 1) create_tables [Json post_1; Garbage; Json post_2] 3
            _ 2 (Some 1) _).
  vm_compute. reflexivity.
Defined.

Lemma run_nothing_to_do_target_0 :
  run (Batch_1D 2000) store_after_post_1 [Json VNone; Garbage] 0 =
  Ok (store_after_post_1, 0, Some 0).
Proof.
  apply (run_nothing_to_do (Batch_1D 2000) store_after_post_1 [Json VNone; Garbage] 0).
  right. lia.
Defined.

Lemma run_keeps_keys_unique_post_1 : well_keyed store_after_post_1.
Proof.
  apply (run_keeps_keys_unique Txt_1C create_tables [Json post_1] 1
           store_after_post_1 1 (Some 0)).
  - reflexivity.
  - repeat split; intros k _; unfold key_count; simpl; lia.
Defined.

Lemma run_keeps_geo_references_post_1 : geo_ref store_after_post_1.
Proof.
  apply (run_keeps_geo_references Txt_1C create_tables [Json post_1] 1
           store_after_post_1 1 (Some 0)).
  - reflexivity.
  - constructor.
Defined.

Lemma run_keeps_user_references_post_1 : user_ref store_after_post_1.
Proof.
  apply (run_keeps_user_references Txt_1C create_tables [Json post_1] 1
           store_after_post_1 1 (Some 0)).
  - reflexivity.
  - constructor.
Defined.

Lemma batches_stay_below_batch_size_of_2 :
  pending_bound 2 (mkst store_after_post_1
                     [[VStr "42"; VStr "Ann"; VStr "ann"; VNone; VInt 7]]
                     [[VStr "10.0_20.0"; VStr "Point"; VFloat "10.0"; VFloat "20.0"]]
                     [[VStr "Mon Apr 01 10:00:00 +0000 2013"; VStr "2"; VStr "hello";
                       VStr "web"; VNone; VNone; VNone; VInt 0; VStr "null";
                       VStr "42"; VStr "10.0_20.0"]]
                     3 1).
Proof.
  apply (batches_stay_below_batch_size store_after_post_1
           [Json post_1; Garbage; Json post_1; Json post_2] 5 2).
  vm_compute. reflexivity.
Defined.

Lemma saved_file_is_read_to_its_end_3_lines :
  exists db',
    run Txt_1C create_tables
      (save_first_n_tweets_to_file_1A 3 [Json post_1; Garbage; Json post_2; Json post_1]) 3
    = Ok (db', 2, Some 1).
Proof.
  refine (saved_file_is_read_to_its_end Txt_1C create_tables 3
            [Json post_1; Garbage; Json post_2; Json post_1] _).
  repeat constructor; vm_compute; discriminate.
Defined.

Lemma strategies_agree_on_two_posts :
  outcome Web_1B create_tables [Json post_1; Blank; Json post_2] 2 =
  outcome (Batch_1D 2000) create_tables [Json post_1; Blank; Json post_2] 2.
Proof.
  apply (strategies_agree_on_complete_records Web_1B (Batch_1D 2000) create_tables
           [Json post_1; Blank; Json post_2] 2).
  repeat constructor.
Defined.



Lemma scenario_two_posts_one_invalid_line_post_1_post_2 :
  exists db,
    batch_insert_data_1D create_tables [Json post_1; Garbage; Json post_2] 3 1 =
      Ok (db, 2, 1) /\
    List.length (USER db) = 1%nat /\
    map (key (primary_key Geo)) (GEO db) = [SText "10.0_20.0"] /\
    map (fun r => (key (primary_key Tweet) r, nth 10 r SNull)) (TWEET db) =
      [(SText "1", SText "10.0_20.0"); (SText "2", SText "10.0_20.0")].
Proof.
  apply (scenario_two_posts_one_invalid_line post_1 post_2 Garbage
           [Json post_1; Garbage; Json post_2] (SText "42") (SText "1") (SText "2"));
    try reflexivity; try (vm_compute; discriminate).
  right; left; reflexivity.
Defined.

(** C9 fails as stated: two posts of an actor whose id is the empty string
    leave two USER rows, and two posts at the same place, its coordinates
    written 10.0, 20.0 in one and 10, 20 in the other, leave two GEO rows. *)
Lemma one_actor_or_one_place_stored_twice :
  let anonymous := actor (VStr "") in
  let there := point (VInt 10) (VInt 20) in
  (exists db,
     batch_insert_data_1D create_tables
       [Json (post (VStr "1") anonymous here); Garbage;
        Json (post (VStr "2") anonymous here)] 3 1 = Ok (db, 2, 1) /\
     List.length (USER db) = 2%nat) /\
  (exists db,
     batch_insert_data_1D create_tables
       [Json post_1; Garbage; Json (post (VStr "2") (actor (VStr "42")) there)] 3 1
     = Ok (db, 2, 1) /\
     map (key (primary_key Geo)) (GEO db) = [SText "10.0_20.0"; SText "10_20"]).
Proof.
  split; eexists; (split; [vm_compute; reflexivity|]); reflexivity.
Qed.
